(** * tools/translate_script.py: word-level ES -> PT-BR substitution in
      semicolon-delimited localisation files.

    A shallow embedding of the script and the properties of its header
    locator, skip classifier, word substituter, line rewriter and batch
    driver.

    Python [str] values are sequences of Unicode code points; they are
    modelled as [list N].  The script's behaviour on a character depends on
    the interpreter's Unicode tables ([str.lower], [str.upper],
    [str.isupper], [str.strip], and the classes [\w] and [\d] of [re]).
    These tables are written out for the Latin-1 range U+0000..U+00FF, where
    every character of the script's own literals lives, and are taken from a
    record [ucd] for the code points above it, so that every statement holds
    whatever the tables say there. *)

From Stdlib Require Import NArith Lia Bool.
From stdpp Require Import base option list gmap strings.

Open Scope N_scope.

(** ** Python strings *)

Abbreviation pystr := (list N).

(** Decoding of a source literal: the bytes of a Rocq string, read as UTF-8
    (only used on well-formed literals). *)
Fixpoint decode_utf8 (bs : list N) : pystr :=
  match bs with
  | [] => []
  | b :: r =>
    if b <? 0x80 then b :: decode_utf8 r
    else if b <? 0xE0 then
      match r with
      | b1 :: r1 => ((b mod 0x20) * 0x40 + b1 mod 0x40) :: decode_utf8 r1
      | _ => []
      end
    else if b <? 0xF0 then
      match r with
      | b1 :: b2 :: r2 =>
        ((b mod 0x10) * 0x1000 + (b1 mod 0x40) * 0x40 + b2 mod 0x40)
          :: decode_utf8 r2
      | _ => []
      end
    else
      match r with
      | b1 :: b2 :: b3 :: r3 =>
        ((b mod 0x08) * 0x40000 + (b1 mod 0x40) * 0x1000
         + (b2 mod 0x40) * 0x40 + b3 mod 0x40) :: decode_utf8 r3
      | _ => []
      end
  end.

Definition bytes_of_string (s : string) : list N :=
  map Ascii.N_of_ascii (String.list_ascii_of_string s).

Definition py (s : string) : pystr := decode_utf8 (bytes_of_string s).

(** Number of bytes of the UTF-8 encoding of a text ([f.write] with
    [encoding='utf-8']). *)
Definition utf8_width (c : N) : N :=
  if c <? 0x80 then 1 else if c <? 0x800 then 2
  else if c <? 0x10000 then 3 else 4.

Definition utf8_size (s : pystr) : N :=
  fold_right (fun c n => utf8_width c + n) 0 s.

Definition in_range (lo hi c : N) : bool := (lo <=? c) && (c <=? hi).

(** *** The Unicode tables above Latin-1 *)

Record ucd := {
  (* Py_UNICODE_ISALNUM, behind [\w] *)
  ucd_isalnum : N -> bool;
  (* Py_UNICODE_ISDECIMAL, behind [\d] *)
  ucd_isdecimal : N -> bool;
  (* Py_UNICODE_ISSPACE, behind [str.strip] *)
  ucd_isspace : N -> bool;
  (* Py_UNICODE_ISUPPER, behind [str.isupper] of a one-character string *)
  ucd_isupper : N -> bool;
  (* the full upper-case mapping of one character *)
  ucd_upper : N -> pystr;
  (* the lower-case mapping of one character, given the text before it
     (nearest character first) and after it: the mapping of capital sigma
     depends on both *)
  ucd_lower : pystr -> N -> pystr -> pystr
}.

(** The tables that know no character above Latin-1. *)
Definition latin1_only : ucd :=
  {| ucd_isalnum := fun _ => false;
     ucd_isdecimal := fun _ => false;
     ucd_isspace := fun _ => false;
     ucd_isupper := fun _ => false;
     ucd_upper := fun c => [c];
     ucd_lower := fun _ c _ => [c] |}.

Section PythonStr.
Variable U : ucd.

Definition isalnum (c : N) : bool :=
  if c <? 0x100 then
    in_range 0x30 0x39 c || in_range 0x41 0x5A c || in_range 0x61 0x7A c
    || (c =? 0xAA) || in_range 0xB2 0xB3 c || (c =? 0xB5)
    || in_range 0xB9 0xBA c || in_range 0xBC 0xBE c
    || in_range 0xC0 0xD6 c || in_range 0xD8 0xF6 c || in_range 0xF8 0xFF c
  else ucd_isalnum U c.

Definition isdecimal (c : N) : bool :=
  if c <? 0x100 then in_range 0x30 0x39 c else ucd_isdecimal U c.

Definition isspace (c : N) : bool :=
  if c <? 0x100 then
    in_range 0x09 0x0D c || in_range 0x1C 0x20 c || (c =? 0x85) || (c =? 0xA0)
  else ucd_isspace U c.

(** [ch.isupper()] for a string [ch] of one character. *)
Definition isupper1 (c : N) : bool :=
  if c <? 0x100 then
    in_range 0x41 0x5A c || in_range 0xC0 0xD6 c || in_range 0xD8 0xDE c
  else ucd_isupper U c.

Definition upper1 (c : N) : pystr :=
  if c <? 0x100 then
    if in_range 0x61 0x7A c || in_range 0xE0 0xF6 c || in_range 0xF8 0xFE c
    then [c - 0x20]
    else if c =? 0xB5 then [0x39C]
    else if c =? 0xDF then [0x53; 0x53]
    else if c =? 0xFF then [0x178]
    else [c]
  else ucd_upper U c.

Definition lower1 (before : pystr) (c : N) (after : pystr) : pystr :=
  if c <? 0x100 then
    if in_range 0x41 0x5A c || in_range 0xC0 0xD6 c || in_range 0xD8 0xDE c
    then [c + 0x20] else [c]
  else ucd_lower U before c after.

(** [s.upper()] *)
Definition upper (s : pystr) : pystr := concat (map upper1 s).

(** [s.lower()] *)
Fixpoint lower_from (before s : pystr) : pystr :=
  match s with
  | [] => []
  | c :: t => lower1 before c t ++ lower_from (c :: before) t
  end.

Definition lower (s : pystr) : pystr := lower_from [] s.

(** [s.strip()] *)
Fixpoint lstrip (s : pystr) : pystr :=
  match s with
  | c :: t => if isspace c then lstrip t else s
  | [] => []
  end.

Definition rstrip (s : pystr) : pystr := reverse (lstrip (reverse s)).

Definition strip (s : pystr) : pystr := rstrip (lstrip s).
End PythonStr.

(** [s.startswith(p)] *)
Fixpoint startswith (p s : pystr) : bool :=
  match p, s with
  | [], _ => true
  | a :: p', b :: s' => (a =? b) && startswith p' s'
  | _ :: _, [] => false
  end.

(** [p in s] for strings *)
Fixpoint contains (p s : pystr) : bool :=
  startswith p s || match s with [] => false | _ :: t => contains p t end.

(** [a == b] on strings *)
Definition str_eqb (a b : pystr) : bool := bool_decide (a = b).

(** [s.split(sep, maxsplit)] for a one-character separator and
    [maxsplit >= 0]: at most [maxsplit] cuts, the last piece is the
    remainder. *)
Fixpoint split_max (sep : N) (maxsplit : nat) (s : pystr) : list pystr :=
  match s with
  | [] => [[]]
  | c :: t =>
    match maxsplit with
    | O => [s]
    | S m =>
      if c =? sep then [] :: split_max sep m t
      else match split_max sep maxsplit t with
           | h :: r => (c :: h) :: r
           | [] => [[c]]
           end
    end
  end.

(** [s.split(sep)]: no limit; a text has at most [length s] separators. *)
Definition split (sep : N) (s : pystr) : list pystr :=
  split_max sep (length s) s.

(** [sep.join(parts)] *)
Fixpoint join (sep : pystr) (parts : list pystr) : pystr :=
  match parts with
  | [] => []
  | [p] => p
  | p :: r => p ++ sep ++ join sep r
  end.

(** The line boundaries of [str.splitlines]. *)
Definition is_linebreak (c : N) : bool :=
  in_range 0x0A 0x0D c || in_range 0x1C 0x1E c || (c =? 0x85)
  || in_range 0x2028 0x2029 c.

(** [s.splitlines()]: [cur] is the line being read. *)
Fixpoint splitlines_from (cur s : pystr) : list pystr :=
  match s with
  | [] => match cur with [] => [] | _ => [cur] end
  | c :: t =>
    if c =? 0x0D then
      (* a carriage return and the line feed after it are one boundary *)
      cur :: splitlines_from []
               match t with
               | x :: t' => if x =? 0x0A then t' else t
               | [] => t
               end
    else if is_linebreak c then cur :: splitlines_from [] t
    else splitlines_from (cur ++ [c]) t
  end.

Definition splitlines (s : pystr) : list pystr := splitlines_from [] s.


(** ** Regular expressions

    The part of [re] that the script's patterns use.  [Sym p] is one
    character of a class; a lazy quantifier denotes the same language as the
    greedy one, and [Pattern.search] only reports whether some substring of
    the text belongs to the language. *)

Inductive regex :=
| Void
| Eps
| Sym (p : N -> bool)
| Seq (r1 r2 : regex)
| Alt (r1 r2 : regex)
| Star (r : regex).

Definition Chr (c : N) : regex := Sym (N.eqb c).
Definition NotChr (c : N) : regex := Sym (fun x => negb (c =? x)).
Definition Plus (r : regex) : regex := Seq r (Star r).
Definition Lit (s : pystr) : regex := fold_right (fun c r => Seq (Chr c) r) Eps s.

Inductive matches : regex -> pystr -> Prop :=
| matches_eps : matches Eps []
| matches_sym p c : p c = true -> matches (Sym p) [c]
| matches_seq r1 r2 s1 s2 :
    matches r1 s1 -> matches r2 s2 -> matches (Seq r1 r2) (s1 ++ s2)
| matches_alt_l r1 r2 s : matches r1 s -> matches (Alt r1 r2) s
| matches_alt_r r1 r2 s : matches r2 s -> matches (Alt r1 r2) s
| matches_star_nil r : matches (Star r) []
| matches_star_app r s1 s2 :
    matches r s1 -> matches (Star r) s2 -> matches (Star r) (s1 ++ s2).

Fixpoint nullable (r : regex) : bool :=
  match r with
  | Void => false
  | Eps => true
  | Sym _ => false
  | Seq r1 r2 => nullable r1 && nullable r2
  | Alt r1 r2 => nullable r1 || nullable r2
  | Star _ => true
  end.

(** What remains to be read of [r] after the character [c]. *)
Fixpoint deriv (c : N) (r : regex) : regex :=
  match r with
  | Void => Void
  | Eps => Void
  | Sym p => if p c then Eps else Void
  | Seq r1 r2 =>
    if nullable r1 then Alt (Seq (deriv c r1) r2) (deriv c r2)
    else Seq (deriv c r1) r2
  | Alt r1 r2 => Alt (deriv c r1) (deriv c r2)
  | Star r1 => Seq (deriv c r1) (Star r1)
  end.

(** [Pattern.match]: does a prefix of [s] belong to [r]? *)
Fixpoint match_prefix (r : regex) (s : pystr) : bool :=
  nullable r ||
  match s with
  | [] => false
  | c :: t => match_prefix (deriv c r) t
  end.

(** [Pattern.search], as a truth value. *)
Fixpoint search (r : regex) (s : pystr) : bool :=
  match_prefix r s ||
  match s with
  | [] => false
  | _ :: t => search r t
  end.

(** [re.sub(pattern, repl, text)] for a pattern of the shape [[class]+]: the
    matches are the maximal runs of characters of the class, each replaced
    by [repl] of the run; [run] is the run being read. *)
Definition flush (repl : pystr -> pystr) (run : pystr) : pystr :=
  match run with
  | [] => []
  | _ => repl run
  end.

Fixpoint sub_from (p : N -> bool) (repl : pystr -> pystr) (run s : pystr) : pystr :=
  match s with
  | [] => flush repl run
  | c :: t =>
    if p c then sub_from p repl (run ++ [c]) t
    else flush repl run ++ c :: sub_from p repl [] t
  end.

Definition sub_class_plus (p : N -> bool) (repl : pystr -> pystr) (text : pystr) : pystr :=
  sub_from p repl [] text.

(** ** The script *)

(** Python's insertion-ordered [dict] with string keys: a display that
    repeats a key keeps the key's first position and its last value. *)
Definition dict := list (pystr * pystr).

Fixpoint dict_set (k v : pystr) (d : dict) : dict :=
  match d with
  | [] => [(k, v)]
  | (k', v') :: r =>
    if str_eqb k' k then (k', v) :: r else (k', v') :: dict_set k v r
  end.

Definition dict_display (items : list (pystr * pystr)) : dict :=
  fold_left (fun d kv => dict_set kv.1 kv.2 d) items [].

(** [d.get(k)]; [k in d] is [is_Some (dict_get k d)] *)
Fixpoint dict_get (k : pystr) (d : dict) : option pystr :=
  match d with
  | [] => None
  | (k', v) :: r => if str_eqb k' k then Some v else dict_get k r
  end.

Definition DICT : dict := dict_display
  [ (py "Aceptar", py "Aceitar"); (py "Aceptar.", py "Aceitar.");
    (py "Aceptar!", py "Aceitar!"); (py "Aceptar?", py "Aceitar?");
    (py "Aceptar;", py "Aceitar;"); (py "Aceptar,", py "Aceitar,");
    (py "Cancelar", py "Cancelar"); (py "Sí", py "Sim"); (py "Si", py "Se");
    (py "No", py "Não");
    (py "Bienvenido", py "Bem-vindo"); (py "Bienvenida", py "Bem-vinda");
    (py "Bienvenidos", py "Bem-vindos");
    (py "Cerrar", py "Fechar"); (py "Abrir", py "Abrir");
    (py "Aceptar", py "Aceitar"); (py "Aceptar", py "Aceitar");
    (py "Aceptar", py "Aceitar"); (py "Reino", py "Reino");
    (py "Reyes", py "Reis"); (py "Rey", py "Rei"); (py "Reina", py "Rainha");
    (py "Hijos", py "Filhos"); (py "Hijas", py "Filhas");
    (py "Hijo", py "Filho"); (py "Hija", py "Filha");
    (py "Guardar", py "Salvar"); (py "Cargar", py "Carregar");
    (py "Siguiente", py "Próximo"); (py "Anterior", py "Anterior");
    (py "Aceptar", py "Aceitar"); (py "Aceptar", py "Aceitar") ].

Definition dollar : N := 0x24.
Definition semicolon : N := 0x3B.
Definition LF : N := 0x0A.

(** The Python literal ['\\n']: a backslash and the letter n. *)
Definition escaped_newline : pystr := [0x5C; 0x6E].

(** [re.compile(r"\$[^\$]+\$|__PROTECTED_\d+__")] *)
Definition PLACEHOLDER_PATTERN (U : ucd) : regex :=
  Alt (Seq (Chr dollar) (Seq (Plus (NotChr dollar)) (Chr dollar)))
      (Seq (Lit (py "__PROTECTED_")) (Seq (Plus (Sym (isdecimal U))) (Lit (py "__")))).

(** [re.compile(r"\[.*?\]")]: the dot is any character but a line feed. *)
Definition BRACKET_PATTERN : regex :=
  Seq (Chr 0x5B) (Seq (Star (NotChr LF)) (Chr 0x5D)).

Inductive status := TRADUZIDO | IGNORADO | BLOQUEADO.

#[global] Instance status_eq_dec : EqDecision status.
Proof. solve_decision. Defined.

Definition status_str (s : status) : pystr :=
  match s with
  | TRADUZIDO => py "TRADUZIDO"
  | IGNORADO => py "IGNORADO"
  | BLOQUEADO => py "BLOQUEADO"
  end.


Section Script.
Variable U : ucd.

(** The header test: [c.strip().upper() == 'SPANISH'] *)
Definition is_spanish (c : pystr) : bool :=
  str_eqb (upper U (strip U c)) (py "SPANISH").

(** The [for i, c in enumerate(cols)] loop, from index [i] on. *)
Fixpoint find_spanish (i : nat) (cols : list pystr) : option nat :=
  match cols with
  | [] => None
  | c :: r => if is_spanish c then Some i else find_spanish (S i) r
  end.

Definition detect_spanish_header (cols : list pystr) : option nat :=
  match find_spanish 0 cols with
  | Some i => Some i
  | None => if (5 <? length cols)%nat then Some 5%nat else None
  end.

Definition should_skip (text : pystr) : bool :=
  match text with
  | [] => true
  | _ =>
    if contains escaped_newline text then true
    else if search BRACKET_PATTERN text then true
    else if search (PLACEHOLDER_PATTERN U) text then true
    else false
  end.

Definition remove_leading_inverted_exclamation (text : pystr) : pystr :=
  if startswith (py "¡") text then drop 1 text else text.

(** [v[0].upper() + v[1:]]; the values of [DICT] are not empty. *)
Definition capitalize_first (v : pystr) : pystr :=
  match v with
  | c :: t => upper1 U c ++ t
  | [] => []
  end.

(** The case-insensitive scan [for k, v in DICT.items()]. *)
Definition lookup_nocase (w : pystr) (d : dict) : option (pystr * pystr) :=
  let lw := lower U w in
  find (fun kv => str_eqb (lower U kv.1) lw) d.

(** The callback of [re.sub]; [w] is a match of [[...]+], hence not
    empty, and [w[0]] exists. *)
Definition repl (w : pystr) : pystr :=
  match dict_get w DICT with
  | Some v => v
  | None =>
    match lookup_nocase w DICT with
    | Some (_, v) =>
      match w with
      | c :: _ => if isupper1 U c then capitalize_first v else v
      | [] => v
      end
    | None => w
    end
  end.

(** The class [[\wÁÉÍÓÚáéíóúÑñÜüçÇ]] *)
Definition word_class (c : N) : bool :=
  isalnum U c || (c =? 0x5F) || existsb (N.eqb c) (py "ÁÉÍÓÚáéíóúÑñÜüçÇ").

Definition translate_text (text : pystr) : pystr * status :=
  if should_skip text then (text, BLOQUEADO)
  else
    let orig := text in
    let text := remove_leading_inverted_exclamation text in
    let translated := sub_class_plus word_class repl text in
    (translated, if str_eqb translated orig then IGNORADO else TRADUZIDO).

(** The body of [for ln in lines[1:]]: the new line and whether its cell
    was translated. *)
Definition rewrite_line (spanish_idx : nat) (ln : pystr) : pystr * bool :=
  if startswith (py "#") ln then (ln, false)
  else
    let left_parts := split_max semicolon spanish_idx ln in
    if (length left_parts <? spanish_idx + 1)%nat then (ln, false)
    else
      let left_ := join (py ";") (take spanish_idx left_parts) in
      let rest := nth spanish_idx left_parts [] in
      let '(span, right_) :=
        if contains (py ";") rest then
          match split_max semicolon 1 rest with
          | [span; right_] => (span, py ";" ++ right_)
          | _ => (rest, [])
          end
        else (rest, []) in
      let '(new_span, st) := translate_text span in
      let new_line :=
        match left_ with
        | [] => new_span ++ right_
        | _ => left_ ++ py ";" ++ new_span ++ right_
        end in
      (new_line, match st with TRADUZIDO => true | _ => false end).

Definition process_line (spanish_idx : nat) (acc : list pystr * nat)
    (ln : pystr) : list pystr * nat :=
  let '(new_line, translated) := rewrite_line spanish_idx ln in
  (acc.1 ++ [new_line], if translated then S acc.2 else acc.2).
End Script.

(** *** Files

    The directory [CSV_DIR], by file name.  A file has the size [stat]
    reports and the text [f.read()] returns for it (the bytes decoded as
    UTF-8, malformed ones replaced). *)
Record file := { st_size : N; text : pystr }.

Abbreviation fsys := (gmap pystr file).

(** A computation on the directory that may die of an uncaught [OSError]. *)
Definition io (A : Type) : Type := fsys -> option (A * fsys).

#[global] Instance io_ret : MRet io := fun A x fs => Some (x, fs).
#[global] Instance io_bind : MBind io := fun A B f m fs =>
  match m fs with
  | Some (x, fs') => f x fs'
  | None => None
  end.

Definition read_text (path : pystr) : io pystr := fun fs =>
  match fs !! path with
  | Some f => Some (text f, fs)
  | None => None
  end.

Definition stat_size (path : pystr) : io N := fun fs =>
  match fs !! path with
  | Some f => Some (st_size f, fs)
  | None => None
  end.

Definition write_text (path : pystr) (t : pystr) : io unit := fun fs =>
  Some (tt, <[path := {| st_size := utf8_size t; text := t |}]> fs).

Arguments py : simpl never.

Section Driver.
Variable U : ucd.

Definition process_file (path : pystr) : io (status * nat) :=
  content ← read_text path;
  match splitlines content with
  | [] => mret (IGNORADO, 0%nat)
  | header :: data =>
    let cols := split semicolon header in
    match detect_spanish_header U cols with
    | None => mret (IGNORADO, 0%nat)
    | Some spanish_idx =>
      let '(out_lines, translated_count) :=
        fold_left (process_line U spanish_idx) data ([header], 0%nat) in
      _ ← write_text path (join [LF] out_lines ++ [LF]);
      mret (TRADUZIDO, translated_count)
    end
  end.

Definition large_threshold : N := 10 * 1024.
Definition LOG_FILE : pystr := py "translated_files_log.txt".

Definition log_entry : Type := pystr * pystr * status.

(** The body of [for file in sorted(CSV_DIR.glob('*.csv'))]. *)
Definition main_step (results : list log_entry) (name : pystr)
    : io (list log_entry) :=
  if str_eqb name LOG_FILE then mret results
  else
    size ← stat_size name;
    if size <=? large_threshold then mret results
    else
      r ← process_file name;
      mret (results ++ [(name, py "SCRIPT", r.1)]).

Fixpoint main_loop (results : list log_entry) (names : list pystr)
    : io (list log_entry) :=
  match names with
  | [] => mret results
  | name :: rest => results' ← main_step results name; main_loop results' rest
  end.

(** [f"{name};{method};{status}\n"] *)
Definition log_line (e : log_entry) : pystr :=
  e.1.1 ++ py ";" ++ e.1.2 ++ py ";" ++ status_str e.2 ++ [LF].

(** [main], given the listing [sorted(CSV_DIR.glob('*.csv'))]; it returns
    the number of files of the summary it prints. *)
Definition main (listing : list pystr) : io nat :=
  results ← main_loop [] listing;
  _ ← write_text LOG_FILE (concat (map log_line results));
  mret (length results).
End Driver.


(** ** The skip rules in the words of the specification

    A cell is ineligible when it is empty, contains the two-character
    escape sequence for a newline, contains a substring enclosed in square
    brackets, contains a dollar-delimited placeholder, or contains a
    protected-token marker with a number. *)

Definition has_escaped_newline (text : pystr) : Prop :=
  exists pre post, text = pre ++ escaped_newline ++ post.

Definition has_bracketed (text : pystr) : Prop :=
  exists pre mid post, text = pre ++ py "[" ++ mid ++ py "]" ++ post.

Definition has_dollar_placeholder (text : pystr) : Prop :=
  exists pre mid post,
    text = pre ++ py "$" ++ mid ++ py "$" ++ post /\ mid <> [] /\ dollar ∉ mid.

Definition has_protected_marker (U : ucd) (text : pystr) : Prop :=
  exists pre digits post,
    text = pre ++ py "__PROTECTED_" ++ digits ++ py "__" ++ post
    /\ digits <> [] /\ Forall (fun c => isdecimal U c = true) digits.

Definition skip_rule (U : ucd) (text : pystr) : Prop :=
  text = [] \/ has_escaped_newline text \/ has_bracketed text
  \/ has_dollar_placeholder text \/ has_protected_marker U text.

(** The bracket rule as the pattern has it: nothing between the brackets is
    a line feed. *)
Definition has_bracketed_on_a_line (text : pystr) : Prop :=
  exists pre mid post,
    text = pre ++ py "[" ++ mid ++ py "]" ++ post /\ LF ∉ mid.

(** ** The batch driver in the words of the specification *)

(** The file-level outcome: IGNORADO for a file without lines or without a
    target column, TRADUZIDO for a file that is rewritten. *)
Definition file_outcome (U : ucd) (f : file) : status :=
  match splitlines (text f) with
  | [] => IGNORADO
  | header :: _ =>
    match detect_spanish_header U (split semicolon header) with
    | None => IGNORADO
    | Some _ => TRADUZIDO
    end
  end.

(** A listed file passes the size gate: it is not the log file and its size
    exceeds the threshold. *)
Definition passes_gate (fs : fsys) (name : pystr) : bool :=
  negb (str_eqb name LOG_FILE) &&
  match fs !! name with
  | Some f => large_threshold <? st_size f
  | None => false
  end.

(** The log entry of a file that passed the gate. *)
Definition entry_of (U : ucd) (fs : fsys) (name : pystr) : log_entry :=
  (name, py "SCRIPT",
   match fs !! name with Some f => file_outcome U f | None => IGNORADO end).

(** A file as [f.write] leaves it. *)
Definition written (t : pystr) : file := {| st_size := utf8_size t; text := t |}.

(** ** The line rewriter in the words of the specification *)

(** The columns to the left of a cell, each with the delimiter that ends
    it. *)
Definition columns_text (cols : list pystr) : pystr :=
  concat (map (fun c => c ++ py ";") cols).

(** What follows a cell in its line: nothing, or a delimiter and the rest. *)
Definition is_suffix_text (s : pystr) : Prop := s = [] \/ head s = Some semicolon.

(** ** A sample directory

    Three record files: one of a few bytes, one above ten KiB whose header
    names no target column, one above ten KiB with a SPANISH column. *)

Definition sample_text (header line : pystr) (n : nat) : pystr :=
  header ++ [LF] ++ concat (repeat (line ++ [LF]) n).

Definition small_csv : file := written (sample_text (py "CODE;SPANISH;x") (py "k;Rey;x") 3).
Definition plain_csv : file := written (sample_text (py "CODE;TEXT") (py "k;Rey") 2000).
Definition large_csv : file := written (sample_text (py "CODE;SPANISH;x") (py "k;Rey;x") 1500).

Definition sample_dir : fsys :=
  <[py "a.csv" := small_csv]> (<[py "b.csv" := plain_csv]> (<[py "c.csv" := large_csv]> ∅)).

Definition sample_listing : list pystr := [py "a.csv"; py "b.csv"; py "c.csv"].

(** ** Texts of lines and of cells *)

(** A text without any of the line boundaries of [str.splitlines]. *)
Definition no_linebreak (s : pystr) : Prop := Forall (fun c => is_linebreak c = false) s.

(** A character of a cell of Latin-1 text: below U+0100 and no delimiter. *)
Definition latin1_cell_char (c : N) : Prop := c < 0x100 /\ c <> semicolon.

(** A record file with a comment line. *)
Definition commented_csv : file :=
  written (py "CODE;SPANISH;x" ++ [LF] ++ py "#note;Rey" ++ [LF] ++ py "k;Rey;x" ++ [LF]).

Definition commented_dir : fsys := {[ py "n.csv" := commented_csv ]}.

(** * Properties *)

(** ** The header locator *)

Section HeaderLocator.
Variable U : ucd.

(** The scan returns the first index, counted from [i], of a column that
    passes the header test. *)
Lemma find_spanish_Some (cols : list pystr) (i j : nat) :
  find_spanish U i cols = Some j ->
  exists n c, j = (i + n)%nat /\ cols !! n = Some c /\ is_spanish U c = true
    /\ forall m c', (m < n)%nat -> cols !! m = Some c' -> is_spanish U c' = false.
Proof.
  revert i. induction cols as [|c r IH]; intros i Hf; simpl in Hf; [discriminate|].
  destruct (is_spanish U c) eqn:Hc.
  - injection Hf as <-. exists 0%nat, c. repeat split; auto with lia.
  - destruct (IH _ Hf) as (n & c0 & -> & Hn & Hs & Hmin).
    exists (S n), c0. repeat split; auto with lia.
    intros [|m] c' Hm Hl; simpl in Hl.
    + injection Hl as <-. exact Hc.
    + apply (Hmin m); [lia|exact Hl].
Qed.

Lemma find_spanish_None (cols : list pystr) (i : nat) :
  find_spanish U i cols = None ->
  forall c, c ∈ cols -> is_spanish U c = false.
Proof.
  revert i. induction cols as [|c r IH]; intros i Hf x Hx.
  - inversion Hx.
  - simpl in Hf. destruct (is_spanish U c) eqn:Hc; [discriminate|].
    apply elem_of_cons in Hx as [->|Hx]; [exact Hc|]. eapply IH; eauto.
Qed.

Lemma detect_spanish_header_named (cols : list pystr) (j : nat) (c : pystr) :
  cols !! j = Some c -> is_spanish U c = true ->
  exists i c', detect_spanish_header U cols = Some i /\ (i <= j)%nat
    /\ cols !! i = Some c' /\ is_spanish U c' = true.
Proof.
  intros Hj Hc. unfold detect_spanish_header.
  destruct (find_spanish U 0 cols) as [i|] eqn:Hf.
  - destruct (find_spanish_Some _ _ _ Hf) as (n & c' & -> & Hn & Hs & Hmin).
    exists n, c'. simpl. repeat split; auto.
    destruct (Nat.le_gt_cases n j) as [|Hlt]; [assumption|].
    rewrite (Hmin j c Hlt Hj) in Hc. discriminate.
  - assert (c ∈ cols) as Hin by (eapply list_elem_of_lookup_2; eauto).
    rewrite (find_spanish_None _ _ Hf c Hin) in Hc. discriminate.
Qed.

(** C6. A header row with at least one column whose trimmed, upper-cased
    name is SPANISH: the header locator returns the index of such a
    column, not the positional fallback and not the no-column signal; and
    when one column only bears the name, its index. *)
Theorem detect_spanish_header_finds_column (cols : list pystr) :
  (exists c, c ∈ cols /\ is_spanish U c = true) ->
  exists i c, detect_spanish_header U cols = Some i
    /\ cols !! i = Some c /\ is_spanish U c = true
    /\ forall j c', cols !! j = Some c' -> is_spanish U c' = true ->
         (forall k c'', cols !! k = Some c'' -> is_spanish U c'' = true -> k = j) ->
         i = j.
Proof.
  intros (c & Hin & Hc).
  apply list_elem_of_lookup_1 in Hin as [j Hj].
  destruct (detect_spanish_header_named _ _ _ Hj Hc) as (i & c' & Hd & Hle & Hi & Hs).
  exists i, c'. repeat split; auto.
  intros j' c'' Hj' Hc'' Huniq. eapply Huniq; eauto.
Qed.

(** C9. With several columns named SPANISH the header locator returns the
    leftmost: its result is the index of such a column and no column to
    its left is one. *)
Theorem detect_spanish_header_leftmost (cols : list pystr) (j1 j2 : nat) (c1 c2 : pystr) :
  j1 <> j2 ->
  cols !! j1 = Some c1 -> is_spanish U c1 = true ->
  cols !! j2 = Some c2 -> is_spanish U c2 = true ->
  exists i c, detect_spanish_header U cols = Some i
    /\ cols !! i = Some c /\ is_spanish U c = true
    /\ (i <= j1)%nat /\ (i <= j2)%nat
    /\ forall k c', cols !! k = Some c' -> is_spanish U c' = true -> (i <= k)%nat.
Proof.
  intros _ H1 Hs1 H2 Hs2.
  destruct (detect_spanish_header_named _ _ _ H1 Hs1) as (i & c & Hd & Hle & Hi & Hs).
  exists i, c. repeat split; auto.
  - destruct (detect_spanish_header_named _ _ _ H2 Hs2) as (i' & c' & Hd' & Hle' & _).
    congruence.
  - intros k c' Hk Hsk.
    destruct (detect_spanish_header_named _ _ _ Hk Hsk) as (i' & ? & Hd' & Hle' & _).
    congruence.
Qed.

(** Without such a column: index 5 when the header has more than five
    columns, no column otherwise. *)
Lemma detect_spanish_header_fallback (cols : list pystr) :
  (forall c, c ∈ cols -> is_spanish U c = false) ->
  detect_spanish_header U cols
  = if (5 <? length cols)%nat then Some 5%nat else None.
Proof.
  intros Hno. unfold detect_spanish_header.
  destruct (find_spanish U 0 cols) as [i|] eqn:Hf; [|reflexivity].
  destruct (find_spanish_Some _ _ _ Hf) as (n & c & _ & Hn & Hs & _).
  rewrite Hno in Hs; [discriminate|]. eapply list_elem_of_lookup_2; eauto.
Qed.
End HeaderLocator.

Lemma detect_spanish_header_finds_column_witness :
  exists i c, detect_spanish_header latin1_only (split semicolon (py "CODE;ENGLISH; spanish ;x")) = Some i
    /\ split semicolon (py "CODE;ENGLISH; spanish ;x") !! i = Some c
    /\ is_spanish latin1_only c = true
    /\ forall j c', split semicolon (py "CODE;ENGLISH; spanish ;x") !! j = Some c' ->
         is_spanish latin1_only c' = true ->
         (forall k c'', split semicolon (py "CODE;ENGLISH; spanish ;x") !! k = Some c'' ->
            is_spanish latin1_only c'' = true -> k = j) ->
         i = j.
Proof.
  apply (detect_spanish_header_finds_column latin1_only).
  exists (py " spanish "). split; [|vm_compute; reflexivity].
  vm_compute. do 2 apply list_elem_of_further. apply list_elem_of_here.
Defined.

Lemma detect_spanish_header_leftmost_witness :
  exists i c, detect_spanish_header latin1_only (split semicolon (py "a;Spanish;b;SPANISH")) = Some i
    /\ split semicolon (py "a;Spanish;b;SPANISH") !! i = Some c
    /\ is_spanish latin1_only c = true
    /\ (i <= 1)%nat /\ (i <= 3)%nat
    /\ forall k c', split semicolon (py "a;Spanish;b;SPANISH") !! k = Some c' ->
         is_spanish latin1_only c' = true -> (i <= k)%nat.
Proof.
  apply (detect_spanish_header_leftmost latin1_only _ 1%nat 3%nat (py "Spanish") (py "SPANISH"));
    [lia | vm_compute; reflexivity ..].
Defined.

(** ** Strings and regular expressions *)

Lemma str_eqb_eq (a b : pystr) : str_eqb a b = true <-> a = b.
Proof. unfold str_eqb. apply bool_decide_eq_true. Qed.

Lemma str_eqb_neq (a b : pystr) : str_eqb a b = false <-> a <> b.
Proof. unfold str_eqb. apply bool_decide_eq_false. Qed.

Lemma startswith_spec (p s : pystr) :
  startswith p s = true <-> exists post, s = p ++ post.
Proof.
  revert s. induction p as [|a p IH]; intros s; simpl.
  - split; eauto.
  - destruct s as [|b s].
    + split; [discriminate|]. intros [post H]. discriminate.
    + rewrite andb_true_iff, N.eqb_eq, IH. split.
      * intros [-> [post ->]]. eauto.
      * intros [post H]. injection H as -> ->. eauto.
Qed.

Lemma contains_spec (p s : pystr) :
  contains p s = true <-> exists pre post, s = pre ++ p ++ post.
Proof.
  induction s as [|c s IH].
  - simpl. rewrite orb_false_r, startswith_spec. split.
    + intros [post H]. exists [], post. exact H.
    + intros (pre & post & H). destruct pre; [eauto|discriminate].
  - cbn [contains]. rewrite orb_true_iff, startswith_spec, IH. split.
    + intros [[post H]|(pre & post & ->)].
      * exists [], post. exact H.
      * exists (c :: pre), post. reflexivity.
    + intros (pre & post & H). destruct pre as [|x pre].
      * left. eauto.
      * right. injection H as -> ->. eauto.
Qed.

Lemma nullable_spec (r : regex) : nullable r = true <-> matches r [].
Proof.
  split.
  - induction r; simpl; intros H; try discriminate.
    + constructor.
    + apply andb_true_iff in H as [H1 H2].
      change (@nil N) with (@nil N ++ []). constructor; auto.
    + apply orb_true_iff in H as [H|H]; [apply matches_alt_l|apply matches_alt_r]; auto.
    + constructor.
  - intros H. remember [] as s eqn:E. induction H; simpl; subst; auto.
    + discriminate.
    + apply app_eq_nil in E as [-> ->]. rewrite IHmatches1, IHmatches2; auto.
    + rewrite IHmatches; auto.
    + rewrite IHmatches; auto using orb_true_r.
Qed.

Lemma deriv_sound (c : N) (r : regex) (s : pystr) :
  matches (deriv c r) s -> matches r (c :: s).
Proof.
  revert s. induction r; simpl; intros s H.
  - inversion H.
  - inversion H.
  - destruct (p c) eqn:Hp; inversion H; subst. constructor; exact Hp.
  - assert (forall t, matches (Seq (deriv c r1) r2) t -> matches (Seq r1 r2) (c :: t)) as Hseq.
    { intros t Ht. inversion Ht; subst.
      change (c :: s1 ++ s2) with ((c :: s1) ++ s2). constructor; auto. }
    destruct (nullable r1) eqn:Hn; [|auto].
    inversion H; subst; [auto|].
    change (c :: s) with ([] ++ c :: s). constructor; auto.
    apply nullable_spec; exact Hn.
  - inversion H; subst; [apply matches_alt_l|apply matches_alt_r]; auto.
  - inversion H; subst.
    change (c :: s1 ++ s2) with ((c :: s1) ++ s2). constructor; auto.
Qed.

Lemma deriv_complete (c : N) (r : regex) (s : pystr) :
  matches r (c :: s) -> matches (deriv c r) s.
Proof.
  intros H. remember (c :: s) as t eqn:E. revert s E.
  induction H as [|p x Hp|r1 r2 s1 s2 H1 IH1 H2 IH2|r1 r2 t H IH|r1 r2 t H IH
                  |r|r s1 s2 H1 IH1 H2 IH2]; intros u E; simpl.
  - discriminate.
  - injection E as -> <-. rewrite Hp. constructor.
  - destruct s1 as [|y s1]; simpl in E.
    + subst s2. assert (nullable r1 = true) as -> by (apply nullable_spec; auto).
      apply matches_alt_r. auto.
    + injection E as -> <-.
      assert (matches (Seq (deriv c r1) r2) (s1 ++ s2)) by (constructor; auto).
      destruct (nullable r1); [apply matches_alt_l|]; auto.
  - apply matches_alt_l; auto.
  - apply matches_alt_r; auto.
  - discriminate.
  - destruct s1 as [|y s1]; simpl in E.
    + subst s2. apply (IH2 u eq_refl).
    + injection E as -> <-. constructor; auto.
Qed.

Lemma match_prefix_spec (r : regex) (s : pystr) :
  match_prefix r s = true <-> exists m post, s = m ++ post /\ matches r m.
Proof.
  revert r. induction s as [|c s IH]; intros r; cbn [match_prefix].
  - rewrite orb_false_r, nullable_spec. split.
    + intros H. exists [], []. auto.
    + intros (m & post & E & H). symmetry in E. apply app_eq_nil in E as [-> _]. exact H.
  - rewrite orb_true_iff, nullable_spec, IH. split.
    + intros [H|(m & post & -> & H)].
      * exists [], (c :: s). auto.
      * exists (c :: m), post. split; [reflexivity|]. apply deriv_sound; exact H.
    + intros (m & post & E & H). destruct m as [|x m].
      * left; exact H.
      * right. injection E as <- ->. exists m, post. split; [reflexivity|].
        apply deriv_complete; exact H.
Qed.

(** [search] finds the pattern exactly when a substring of the text belongs
    to its language. *)
Lemma search_spec (r : regex) (s : pystr) :
  search r s = true <-> exists pre m post, s = pre ++ m ++ post /\ matches r m.
Proof.
  induction s as [|c s IH]; cbn [search].
  - rewrite orb_false_r, match_prefix_spec. split.
    + intros (m & post & E & H). exists [], m, post. auto.
    + intros (pre & m & post & E & H). destruct pre; [|discriminate].
      simpl in E. eauto.
  - rewrite orb_true_iff, match_prefix_spec, IH. split.
    + intros [(m & post & E & H)|(pre & m & post & -> & H)].
      * exists [], m, post. auto.
      * exists (c :: pre), m, post. auto.
    + intros (pre & m & post & E & H). destruct pre as [|x pre].
      * left. simpl in E. eauto.
      * right. injection E as <- ->. eauto.
Qed.

Lemma matches_Sym (p : N -> bool) (s : pystr) :
  matches (Sym p) s <-> exists c, s = [c] /\ p c = true.
Proof.
  split.
  - intros H. inversion H; subst. eauto.
  - intros (c & -> & H). constructor; exact H.
Qed.

Lemma matches_Seq (r1 r2 : regex) (s : pystr) :
  matches (Seq r1 r2) s <-> exists s1 s2, s = s1 ++ s2 /\ matches r1 s1 /\ matches r2 s2.
Proof.
  split.
  - intros H. inversion H; subst. eauto.
  - intros (s1 & s2 & -> & H1 & H2). constructor; auto.
Qed.

Lemma matches_Alt (r1 r2 : regex) (s : pystr) :
  matches (Alt r1 r2) s <-> matches r1 s \/ matches r2 s.
Proof.
  split.
  - intros H. inversion H; subst; auto.
  - intros [H|H]; [apply matches_alt_l|apply matches_alt_r]; exact H.
Qed.

Lemma matches_Star_Sym (p : N -> bool) (s : pystr) :
  matches (Star (Sym p)) s <-> Forall (fun c => p c = true) s.
Proof.
  split.
  - intros H. remember (Star (Sym p)) as r eqn:E. induction H; try discriminate.
    + constructor.
    + injection E as ->. apply Forall_app. split; [|auto].
      apply matches_Sym in H as (c & -> & Hc). repeat constructor; auto.
  - induction 1 as [|c s Hc _ IH]; [constructor|].
    change (c :: s) with ([c] ++ s). constructor; auto. constructor; auto.
Qed.

Lemma matches_Plus_Sym (p : N -> bool) (s : pystr) :
  matches (Plus (Sym p)) s <-> s <> [] /\ Forall (fun c => p c = true) s.
Proof.
  unfold Plus. rewrite matches_Seq. split.
  - intros (s1 & s2 & -> & H1 & H2).
    apply matches_Sym in H1 as (c & -> & Hc). apply matches_Star_Sym in H2.
    split; [discriminate|]. constructor; auto.
  - intros [Hne H]. destruct H as [|c s Hc H]; [congruence|].
    exists [c], s. split; [reflexivity|]. rewrite matches_Sym, matches_Star_Sym. eauto.
Qed.

Lemma matches_Chr (a : N) (s : pystr) : matches (Chr a) s <-> s = [a].
Proof.
  unfold Chr. rewrite matches_Sym. split.
  - intros (c & -> & H). apply N.eqb_eq in H. congruence.
  - intros ->. exists a. split; [reflexivity|apply N.eqb_refl].
Qed.

Lemma matches_Lit (l s : pystr) : matches (Lit l) s <-> s = l.
Proof.
  revert s. induction l as [|a l IH]; intros s; simpl.
  - split; [intros H; inversion H; reflexivity|intros ->; constructor].
  - rewrite matches_Seq. split.
    + intros (s1 & s2 & -> & H1 & H2). apply matches_Chr in H1 as ->.
      apply IH in H2 as ->. reflexivity.
    + intros ->. exists [a], l. rewrite matches_Chr, IH. auto.
Qed.

Lemma Forall_NotChr (a : N) (s : pystr) :
  Forall (fun c => negb (a =? c) = true) s <-> a ∉ s.
Proof.
  rewrite Forall_forall. split.
  - intros H Hin. specialize (H a Hin). rewrite N.eqb_refl in H. discriminate.
  - intros H c Hc. apply negb_true_iff, N.eqb_neq. intros ->. auto.
Qed.

(** ** The skip classifier *)

Section SkipClassifier.
Variable U : ucd.

Lemma BRACKET_PATTERN_spec (text : pystr) :
  search BRACKET_PATTERN text = true <-> has_bracketed_on_a_line text.
Proof.
  rewrite search_spec. unfold BRACKET_PATTERN, has_bracketed_on_a_line. split.
  - intros (pre & m & post & -> & H).
    apply matches_Seq in H as (s1 & s23 & -> & H1 & H23).
    apply matches_Seq in H23 as (s2 & s3 & -> & H2 & H3).
    apply matches_Chr in H1 as ->. apply matches_Chr in H3 as ->.
    apply matches_Star_Sym, Forall_NotChr in H2.
    exists pre, s2, post. split; [|exact H2].
    rewrite <- !app_assoc. reflexivity.
  - intros (pre & mid & post & -> & H).
    exists pre, (py "[" ++ mid ++ py "]"), post. split.
    + rewrite <- !app_assoc. reflexivity.
    + apply matches_Seq. exists (py "["), (mid ++ py "]"). split; [reflexivity|].
      split; [apply matches_Chr; reflexivity|].
      apply matches_Seq. exists mid, (py "]"). split; [reflexivity|].
      split; [|apply matches_Chr; reflexivity].
      apply matches_Star_Sym, Forall_NotChr. exact H.
Qed.

Lemma PLACEHOLDER_PATTERN_spec (text : pystr) :
  search (PLACEHOLDER_PATTERN U) text = true
  <-> has_dollar_placeholder text \/ has_protected_marker U text.
Proof.
  rewrite search_spec.
  unfold PLACEHOLDER_PATTERN, has_dollar_placeholder, has_protected_marker. split.
  - intros (pre & m & post & -> & H). apply matches_Alt in H as [H'|H'].
    + left.
      apply matches_Seq in H' as (s1 & s23 & -> & H1 & H23).
      apply matches_Seq in H23 as (s2 & s3 & -> & H2 & H3).
      apply matches_Chr in H1 as ->. apply matches_Chr in H3 as ->.
      apply matches_Plus_Sym in H2 as [Hne H2]. apply Forall_NotChr in H2.
      exists pre, s2, post. split; [|auto].
      rewrite <- !app_assoc. reflexivity.
    + right.
      apply matches_Seq in H' as (s1 & s23 & -> & H1 & H23).
      apply matches_Seq in H23 as (s2 & s3 & -> & H2 & H3).
      apply matches_Lit in H1 as ->. apply matches_Lit in H3 as ->.
      apply matches_Plus_Sym in H2 as [Hne H2].
      exists pre, s2, post. split; [|auto].
      rewrite <- !app_assoc. reflexivity.
  - intros [(pre & mid & post & -> & Hne & H)|(pre & ds & post & -> & Hne & H)].
    + exists pre, (py "$" ++ mid ++ py "$"), post. split.
      * rewrite <- !app_assoc. reflexivity.
      * apply matches_alt_l.
        apply matches_Seq. exists (py "$"), (mid ++ py "$"). split; [reflexivity|].
        split; [apply matches_Chr; reflexivity|].
        apply matches_Seq. exists mid, (py "$"). split; [reflexivity|].
        split; [|apply matches_Chr; reflexivity].
        apply matches_Plus_Sym. split; [exact Hne|]. apply Forall_NotChr. exact H.
    + exists pre, (py "__PROTECTED_" ++ ds ++ py "__"), post. split.
      * rewrite <- !app_assoc. reflexivity.
      * apply matches_alt_r.
        apply matches_Seq. exists (py "__PROTECTED_"), (ds ++ py "__").
        split; [reflexivity|]. split; [apply matches_Lit; reflexivity|].
        apply matches_Seq. exists ds, (py "__"). split; [reflexivity|].
        split; [|apply matches_Lit; reflexivity].
        apply matches_Plus_Sym. auto.
Qed.

(** What [should_skip] decides, rule by rule. *)
Lemma should_skip_spec (text : pystr) :
  should_skip U text = true
  <-> text = [] \/ has_escaped_newline text \/ has_bracketed_on_a_line text
      \/ has_dollar_placeholder text \/ has_protected_marker U text.
Proof.
  unfold should_skip. destruct text as [|c t]; [tauto|].
  set (text := c :: t).
  pose proof (contains_spec escaped_newline text) as Hn.
  pose proof (BRACKET_PATTERN_spec text) as Hb.
  pose proof (PLACEHOLDER_PATTERN_spec text) as Hp.
  fold (has_escaped_newline text) in Hn.
  destruct (contains escaped_newline text); [tauto|].
  destruct (search BRACKET_PATTERN text); [tauto|].
  destruct (search (PLACEHOLDER_PATTERN U) text); [tauto|].
  split; [discriminate|].
  intros [H|[H|[H|H]]]; [discriminate| | |];
    [apply Hn in H|apply Hb in H|apply Hp in H]; discriminate.
Qed.

Lemma translate_text_blocked (text : pystr) :
  (translate_text U text).2 = BLOQUEADO <-> should_skip U text = true.
Proof.
  unfold translate_text. destruct (should_skip U text); simpl.
  - tauto.
  - split; [|discriminate].
    destruct (str_eqb _ _); discriminate.
Qed.

Lemma translate_text_skipped (text : pystr) :
  should_skip U text = true -> translate_text U text = (text, BLOQUEADO).
Proof. unfold translate_text. intros ->. reflexivity. Qed.

Lemma has_bracketed_no_LF (text : pystr) :
  LF ∉ text -> has_bracketed text <-> has_bracketed_on_a_line text.
Proof.
  intros Hlf. split.
  - intros (pre & mid & post & ->). exists pre, mid, post. split; [reflexivity|].
    intros Hin. apply Hlf. rewrite !elem_of_app. auto.
  - intros (pre & mid & post & -> & _). exists pre, mid, post. reflexivity.
Qed.

(** C5. For a cell, which lies within one line of the file and so holds
    no line feed, the status is BLOQUEADO exactly when the cell is empty,
    or contains the escape sequence backslash-n, or a substring enclosed
    in square brackets, or a dollar-delimited placeholder, or a
    __PROTECTED_<digits>__ marker; and in those cases the cell is
    returned as it is. *)
Theorem translate_text_blocked_iff (text : pystr) :
  LF ∉ text ->
  ((translate_text U text).2 = BLOQUEADO <-> skip_rule U text)
  /\ (skip_rule U text -> translate_text U text = (text, BLOQUEADO))
  /\ (translate_text U text = (text, BLOQUEADO) <-> skip_rule U text).
Proof.
  intros Hlf.
  assert (should_skip U text = true <-> skip_rule U text) as Hs.
  { rewrite should_skip_spec. unfold skip_rule.
    rewrite (has_bracketed_no_LF _ Hlf). tauto. }
  split; [|split].
  - rewrite translate_text_blocked. exact Hs.
  - intros H. apply translate_text_skipped, Hs, H.
  - split.
    + intros H. apply Hs, translate_text_blocked. rewrite H. reflexivity.
    + intros H. apply translate_text_skipped, Hs, H.
Qed.
End SkipClassifier.

(** ** The word substituter *)

Section WordSubstituter.
Variable U : ucd.

Lemma DICT_values_nonempty (k v : pystr) : (k, v) ∈ DICT -> v <> [].
Proof.
  assert (Forall (fun kv : pystr * pystr => kv.2 <> []) DICT) as H.
  { apply (bool_decide_unpack _). vm_compute. exact I. }
  intros Hin. rewrite Forall_forall in H. apply (H _ Hin).
Qed.

(** No two keys of [DICT] agree when lower-cased: a token matches at most
    one key case-insensitively. *)
Lemma DICT_keys_nocase_distinct (k1 v1 k2 v2 : pystr) :
  (k1, v1) ∈ DICT -> (k2, v2) ∈ DICT -> lower U k1 = lower U k2 ->
  (k1, v1) = (k2, v2).
Proof.
  assert (Forall (fun a : pystr * pystr =>
            Forall (fun b : pystr * pystr => lower U a.1 = lower U b.1 -> a = b) DICT)
            DICT) as H.
  { apply (bool_decide_unpack _). vm_compute. exact I. }
  intros H1 H2 E. rewrite Forall_forall in H. specialize (H _ H1).
  rewrite Forall_forall in H. apply (H _ H2 E).
Qed.

(** The scan finds the one key that matches the token case-insensitively. *)
Lemma lookup_nocase_found (w k v : pystr) :
  (k, v) ∈ DICT -> lower U k = lower U w ->
  lookup_nocase U w DICT = Some (k, v).
Proof.
  intros Hin E. unfold lookup_nocase.
  destruct (find _ DICT) as [[k' v']|] eqn:Hf.
  - apply find_some in Hf as [Hin' E']. simpl in E'.
    apply str_eqb_eq in E'. apply list_elem_of_In in Hin'.
    f_equal. apply DICT_keys_nocase_distinct; [assumption..|congruence].
  - apply list_elem_of_In in Hin.
    pose proof (find_none _ _ Hf _ Hin) as E'. simpl in E'.
    apply str_eqb_neq in E'. congruence.
Qed.

(** The two branches of the callback on a token that misses the exact-case
    lookup and matches a key case-insensitively: the first character of the
    value is upper-cased when the first character of the token is
    upper-case; otherwise the value is returned as the dictionary holds
    it, and nothing lower-cases it. *)
Theorem repl_case_insensitive (c : N) (w k v : pystr) :
  dict_get (c :: w) DICT = None ->
  (k, v) ∈ DICT -> lower U k = lower U (c :: w) ->
  exists v0 vt, v = v0 :: vt
    /\ (isupper1 U c = true -> repl U (c :: w) = upper1 U v0 ++ vt)
    /\ (isupper1 U c = false -> repl U (c :: w) = v).
Proof.
  intros Hmiss Hin E.
  pose proof (DICT_values_nonempty _ _ Hin) as Hne.
  destruct v as [|v0 vt]; [congruence|]. exists v0, vt.
  unfold repl. rewrite Hmiss, (lookup_nocase_found _ _ _ Hin E).
  repeat split; intros ->; reflexivity.
Qed.

(** Every value of [DICT] begins with an upper-case Latin letter, so
    upper-casing its first character changes nothing: on a
    case-insensitive match the token's case never shows in the output. *)
Lemma capitalize_first_DICT (k v : pystr) :
  (k, v) ∈ DICT -> capitalize_first U v = v /\ exists v0 vt, v = v0 :: vt /\ isupper1 U v0 = true.
Proof.
  assert (Forall (fun kv : pystr * pystr =>
            capitalize_first U kv.2 = kv.2
            /\ (match kv.2 with v0 :: _ => isupper1 U v0 | [] => false end) = true)
            DICT) as H.
  { apply (bool_decide_unpack _). vm_compute. exact I. }
  intros Hin. rewrite Forall_forall in H. destruct (H _ Hin) as [H1 H2].
  split; [exact H1|]. simpl in H2. destruct v as [|v0 vt]; [discriminate|]. eauto.
Qed.

Lemma sub_from_nonword (c : N) (t : pystr) :
  word_class U c = false ->
  sub_class_plus (word_class U) (repl U) (c :: t)
  = c :: sub_class_plus (word_class U) (repl U) t.
Proof. intros H. unfold sub_class_plus. simpl. rewrite H. reflexivity. Qed.

(** C4, amended. On an eligible cell the substituter strips one leading
    inverted exclamation mark, and only that: the tokens of the rest are
    substituted; any other cell is substituted whole, and a leading
    inverted question mark stays in place. *)
Theorem translate_text_strips_inverted_exclamation (text : pystr) :
  should_skip U text = false ->
  (forall t, text = 0xA1 :: t ->
     (translate_text U text).1 = sub_class_plus (word_class U) (repl U) t)
  /\ (head text <> Some 0xA1 ->
     (translate_text U text).1 = sub_class_plus (word_class U) (repl U) text)
  /\ (forall t, text = 0xBF :: t ->
     (translate_text U text).1 = 0xBF :: sub_class_plus (word_class U) (repl U) t).
Proof.
  intros Hs. unfold translate_text. rewrite Hs. cbn [fst].
  split; [|split].
  - intros t ->. reflexivity.
  - intros Hh. unfold remove_leading_inverted_exclamation.
    destruct text as [|c t]; [reflexivity|].
    change (py "¡") with [0xA1]. cbn [startswith].
    destruct (N.eqb_spec 0xA1 c) as [<-|_]; [|reflexivity].
    simpl in Hh. congruence.
  - intros t ->. change (remove_leading_inverted_exclamation (0xBF :: t)) with (0xBF :: t).
    apply sub_from_nonword. reflexivity.
Qed.

(** C8. A cell that is a value of the dictionary is left as it is by the
    substituter, which reports it unchanged: substituting twice gives what
    substituting once gives, on a value and on the translation of a key. *)
Theorem translate_text_idempotent_on_values (k v : pystr) :
  (k, v) ∈ DICT ->
  translate_text U v = (v, IGNORADO)
  /\ translate_text U (translate_text U v).1 = translate_text U v
  /\ (translate_text U (translate_text U k).1).1 = (translate_text U k).1.
Proof.
  assert (Forall (fun kv : pystr * pystr =>
            translate_text U kv.2 = (kv.2, IGNORADO)
            /\ (translate_text U (translate_text U kv.1).1).1 = (translate_text U kv.1).1)
            DICT) as H.
  { apply (bool_decide_unpack _). vm_compute. exact I. }
  intros Hin. rewrite Forall_forall in H. destruct (H _ Hin) as [H1 H2].
  simpl in H1, H2. rewrite H1. auto.
Qed.
End WordSubstituter.

Lemma repl_case_insensitive_witness :
  exists v0 vt, py "Rei" = v0 :: vt
    /\ (isupper1 latin1_only 0x52 = true ->
        repl latin1_only (py "REY") = upper1 latin1_only v0 ++ vt)
    /\ (isupper1 latin1_only 0x52 = false -> repl latin1_only (py "REY") = py "Rei").
Proof.
  apply (repl_case_insensitive latin1_only 0x52 (py "EY") (py "Rey") (py "Rei")).
  - vm_compute. reflexivity.
  - apply (bool_decide_unpack _). vm_compute. exact I.
  - vm_compute. reflexivity.
Defined.

(** The token REY of the specification's example. *)
Example repl_REY : repl latin1_only (py "REY") = py "Rei".
Proof. vm_compute. reflexivity. Qed.

(** C2, the defect.  A token whose first character is not upper-case is
    to be replaced by the value left lower-case, the source itself wanting
    a replacement preserving case.  The token rey misses the exact-case
    lookup, matches the key Rey case-insensitively and does not begin with
    an upper-case character, yet the code returns Rei, which begins with a
    capital: the value is returned as stored and every stored value is
    capitalized. *)
Lemma repl_lowercase_token_capitalized :
  dict_get (py "rey") DICT = None
  /\ (py "Rey", py "Rei") ∈ DICT
  /\ lower latin1_only (py "Rey") = lower latin1_only (py "rey")
  /\ isupper1 latin1_only 0x72 = false
  /\ repl latin1_only (py "rey") = py "Rei"
  /\ head (repl latin1_only (py "rey")) = Some 0x52
  /\ isupper1 latin1_only 0x52 = true.
Proof.
  repeat split; try (vm_compute; reflexivity).
  apply (bool_decide_unpack _). vm_compute. exact I.
Qed.

Lemma translate_text_strips_inverted_exclamation_witness :
  (forall t, py "¡Rey" = 0xA1 :: t ->
     (translate_text latin1_only (py "¡Rey")).1
     = sub_class_plus (word_class latin1_only) (repl latin1_only) t)
  /\ (head (py "¡Rey") <> Some 0xA1 ->
     (translate_text latin1_only (py "¡Rey")).1
     = sub_class_plus (word_class latin1_only) (repl latin1_only) (py "¡Rey"))
  /\ (forall t, py "¡Rey" = 0xBF :: t ->
     (translate_text latin1_only (py "¡Rey")).1
     = 0xBF :: sub_class_plus (word_class latin1_only) (repl latin1_only) t).
Proof.
  apply (translate_text_strips_inverted_exclamation latin1_only (py "¡Rey")).
  vm_compute. reflexivity.
Defined.

(** C4 as stated fails: the cell is eligible and begins with an inverted
    question mark, which the substituter does not strip. *)
Lemma translate_text_keeps_inverted_question :
  should_skip latin1_only (py "¿Rey") = false
  /\ translate_text latin1_only (py "¿Rey") = (py "¿Rei", TRADUZIDO)
  /\ translate_text latin1_only (py "¡Rey") = (py "Rei", TRADUZIDO).
Proof. repeat split; vm_compute; reflexivity. Qed.

Lemma translate_text_idempotent_on_values_witness :
  translate_text latin1_only (py "Próximo") = (py "Próximo", IGNORADO)
  /\ translate_text latin1_only (translate_text latin1_only (py "Próximo")).1
     = translate_text latin1_only (py "Próximo")
  /\ (translate_text latin1_only (translate_text latin1_only (py "Siguiente")).1).1
     = (translate_text latin1_only (py "Siguiente")).1.
Proof.
  apply (translate_text_idempotent_on_values latin1_only (py "Siguiente") (py "Próximo")).
  apply (bool_decide_unpack _). vm_compute. exact I.
Defined.

Lemma translate_text_blocked_iff_witness :
  ((translate_text latin1_only (py "[ICON] Guardar")).2 = BLOQUEADO
   <-> skip_rule latin1_only (py "[ICON] Guardar"))
  /\ (skip_rule latin1_only (py "[ICON] Guardar") ->
      translate_text latin1_only (py "[ICON] Guardar") = (py "[ICON] Guardar", BLOQUEADO))
  /\ (translate_text latin1_only (py "[ICON] Guardar") = (py "[ICON] Guardar", BLOQUEADO)
      <-> skip_rule latin1_only (py "[ICON] Guardar")).
Proof.
  apply (translate_text_blocked_iff latin1_only (py "[ICON] Guardar")).
  apply (bool_decide_unpack _). vm_compute. exact I.
Defined.

(** ** The batch driver *)

Section BatchDriver.
Variable U : ucd.

Lemma splitlines_from_nil (cur s : pystr) :
  splitlines_from cur s = [] <-> cur = [] /\ s = [].
Proof.
  revert cur. induction s as [|c t IH]; intros cur; simpl.
  - destruct cur; split; intros H; try discriminate; auto.
    destruct H; discriminate.
  - split; [|intros [_ H]; discriminate].
    intros H. exfalso.
    destruct (c =? 13); [discriminate|].
    destruct (is_linebreak c); [discriminate|].
    apply IH in H as [H _]. destruct cur; discriminate.
Qed.

(** Only the empty text has no line. *)
Lemma splitlines_nil (s : pystr) : splitlines s = [] <-> s = [].
Proof. unfold splitlines. rewrite splitlines_from_nil. tauto. Qed.

(** C10. A file whose content splits into no line: [process_file]
    returns IGNORADO with count 0 and writes nothing, the directory is as
    it was. *)
Theorem process_file_no_lines (fs : fsys) (path : pystr) (f : file) :
  fs !! path = Some f -> splitlines (text f) = [] ->
  process_file U path fs = Some ((IGNORADO, 0%nat), fs).
Proof.
  intros Hf Hl. unfold process_file, mbind, io_bind, read_text.
  rewrite Hf, Hl. reflexivity.
Qed.

(** [process_file] on a file that exists: it returns the file-level
    outcome, and touches no other file. *)
Lemma process_file_outcome (fs : fsys) (path : pystr) (f : file) :
  fs !! path = Some f ->
  exists n fs', process_file U path fs = Some ((file_outcome U f, n), fs')
    /\ (forall p, p <> path -> fs' !! p = fs !! p)
    /\ is_Some (fs' !! path)
    /\ (file_outcome U f = IGNORADO -> fs' = fs /\ n = 0%nat).
Proof.
  intros Hf. unfold process_file, file_outcome, mbind, io_bind, read_text.
  rewrite Hf. destruct (splitlines (text f)) as [|header data].
  - exists 0%nat, fs. rewrite Hf. eauto.
  - destruct (detect_spanish_header U (split semicolon header)) as [idx|].
    + destruct (fold_left _ data _) as [out_lines n]. simpl.
      eexists n, _. split; [reflexivity|]. split; [|split].
      * intros p Hp. apply lookup_insert_ne. congruence.
      * rewrite lookup_insert_eq. eauto.
      * discriminate.
    + exists 0%nat, fs. rewrite Hf. eauto.
Qed.

(** One round of the loop of [main] on a listed file that exists. *)
Lemma main_step_spec (results : list log_entry) (name : pystr) (fs : fsys) (f : file) :
  fs !! name = Some f ->
  exists fs',
    main_step U results name fs
    = Some (results ++ (if passes_gate fs name then [entry_of U fs name] else []), fs')
    /\ (forall p, p <> name -> fs' !! p = fs !! p)
    /\ is_Some (fs' !! name)
    /\ (passes_gate fs name = false -> fs' = fs).
Proof.
  intros Hf. unfold main_step, passes_gate, entry_of.
  destruct (str_eqb name LOG_FILE); simpl.
  { exists fs. rewrite app_nil_r, Hf. eauto. }
  unfold mbind, io_bind, stat_size. rewrite Hf.
  rewrite N.ltb_antisym. destruct (st_size f <=? large_threshold); simpl.
  { exists fs. rewrite app_nil_r, Hf. eauto. }
  destruct (process_file_outcome fs name f Hf) as (n & fs' & -> & Hframe & Hsome & _).
  exists fs'. split; [reflexivity|]. split; [exact Hframe|]. split; [exact Hsome|].
  discriminate.
Qed.

Lemma main_step_small (results : list log_entry) (name : pystr) (fs : fsys) (f : file) :
  name <> LOG_FILE -> fs !! name = Some f -> st_size f <= 10240 ->
  main_step U results name fs = Some (results, fs).
Proof.
  intros Hname Hf Hsz. apply str_eqb_neq in Hname.
  unfold main_step, mbind, io_bind, stat_size. rewrite Hname, Hf.
  change large_threshold with 10240. apply N.leb_le in Hsz. rewrite Hsz. reflexivity.
Qed.

Lemma main_step_large (results : list log_entry) (name : pystr) (fs : fsys) (f : file) :
  name <> LOG_FILE -> fs !! name = Some f -> 10241 <= st_size f ->
  exists n fs', process_file U name fs = Some ((file_outcome U f, n), fs')
    /\ main_step U results name fs
       = Some (results ++ [(name, py "SCRIPT", file_outcome U f)], fs').
Proof.
  intros Hname Hf Hsz. apply str_eqb_neq in Hname.
  unfold main_step, mbind, io_bind, stat_size. rewrite Hname, Hf.
  change large_threshold with 10240.
  assert ((st_size f <=? 10240) = false) as -> by (apply N.leb_gt; lia).
  destruct (process_file_outcome fs name f Hf) as (n & fs' & E & _).
  exists n, fs'. rewrite E. auto.
Qed.

(** C7. The size gate is strict: a listed file of 10240 bytes or fewer is
    passed over, nothing but the log is written and the log has no line; a
    file of 10241 bytes or more is handed to [process_file] and gets its
    line in the log. *)
Theorem main_size_gate (results : list log_entry) (name : pystr) (fs : fsys) (f : file) :
  name <> LOG_FILE -> fs !! name = Some f ->
  (st_size f <= 10240 ->
     main_step U results name fs = Some (results, fs)
     /\ main U [name] fs = Some (0%nat, <[LOG_FILE := written []]> fs))
  /\ (10241 <= st_size f ->
      exists st n fs', process_file U name fs = Some ((st, n), fs')
        /\ main_step U results name fs = Some (results ++ [(name, py "SCRIPT", st)], fs')
        /\ main U [name] fs
           = Some (1%nat, <[LOG_FILE := written (log_line (name, py "SCRIPT", st))]> fs')).
Proof.
  intros Hname Hf. split; intros Hsz.
  - split; [apply (main_step_small _ _ _ f); assumption|].
    unfold main. cbn [main_loop]. unfold mbind, io_bind.
    rewrite (main_step_small [] _ _ f) by assumption. reflexivity.
  - destruct (main_step_large results name fs f Hname Hf Hsz) as (n & fs' & Hp & Hstep).
    exists (file_outcome U f), n, fs'. split; [exact Hp|]. split; [exact Hstep|].
    destruct (main_step_large [] name fs f Hname Hf Hsz) as (n' & fs'' & Hp' & Hstep').
    rewrite Hp in Hp'. injection Hp' as <- <-.
    unfold main. cbn [main_loop]. unfold mbind, io_bind.
    rewrite Hstep'. unfold mret, io_ret, write_text.
    cbn [app map concat length]. rewrite app_nil_r. reflexivity.
Qed.

Lemma passes_gate_ext (fs fs' : fsys) (name : pystr) :
  fs' !! name = fs !! name -> passes_gate fs' name = passes_gate fs name.
Proof. unfold passes_gate. intros ->. reflexivity. Qed.

Lemma entry_of_ext (fs fs' : fsys) (name : pystr) :
  fs' !! name = fs !! name -> entry_of U fs' name = entry_of U fs name.
Proof. unfold entry_of. intros ->. reflexivity. Qed.

(** The loop of [main] over a listing without repetition, every file of
    which exists: the entries are those of the files that pass the gate,
    in the order of the listing, each with the outcome of its file. *)
Lemma main_loop_spec (listing : list pystr) (fs : fsys) (results : list log_entry) :
  NoDup listing -> (forall name, name ∈ listing -> is_Some (fs !! name)) ->
  exists fs',
    main_loop U results listing fs
    = Some (results ++ map (entry_of U fs) (List.filter (passes_gate fs) listing), fs')
    /\ (forall p, p ∉ listing -> fs' !! p = fs !! p)
    /\ (forall p, is_Some (fs !! p) -> is_Some (fs' !! p))
    /\ ((forall name, name ∈ listing -> passes_gate fs name = false) -> fs' = fs).
Proof.
  revert fs results. induction listing as [|name rest IH]; intros fs results Hnd Hex.
  - exists fs. simpl. rewrite app_nil_r. auto.
  - apply NoDup_cons in Hnd as [Hnotin Hnd].
    destruct (Hex name) as [f Hf]; [apply list_elem_of_here|].
    destruct (main_step_spec results name fs f Hf) as (fs1 & Hstep & Hframe & Hsome & Hid).
    assert (forall p, p ∈ rest -> fs1 !! p = fs !! p) as Hrest.
    { intros p Hp. apply Hframe. intros ->. auto. }
    destruct (IH fs1 (results ++ (if passes_gate fs name then [entry_of U fs name] else []))
                Hnd) as (fs' & Hloop & Hframe' & Hsome' & Hid').
    { intros p Hp. rewrite (Hrest p Hp). apply Hex. apply list_elem_of_further, Hp. }
    exists fs'. split; [|split; [|split]].
    + cbn [main_loop]. unfold mbind, io_bind at 1. rewrite Hstep, Hloop.
      do 2 f_equal. rewrite <- app_assoc. f_equal.
      rewrite (filter_ext_in (passes_gate fs1) (passes_gate fs) rest).
      2:{ intros p Hp. apply passes_gate_ext, Hrest, list_elem_of_In, Hp. }
      rewrite (map_ext_in (entry_of U fs1) (entry_of U fs)).
      2:{ intros p Hp. apply filter_In in Hp as [Hp _].
          apply entry_of_ext, Hrest, list_elem_of_In, Hp. }
      cbn [List.filter]. destruct (passes_gate fs name); reflexivity.
    + intros p Hp. apply not_elem_of_cons in Hp as [Hne Hp].
      rewrite (Hframe' p Hp). apply Hframe, Hne.
    + intros p Hp. apply Hsome'. destruct (decide (p = name)) as [->|Hne]; [exact Hsome|].
      rewrite (Hframe p Hne). exact Hp.
    + intros Hall. rewrite Hid in * by (apply Hall, list_elem_of_here).
      apply Hid'. intros p Hp. apply Hall, list_elem_of_further, Hp.
Qed.

(** C3, amended. For a listing without repetition whose files exist,
    [main] ends and writes a log of one line per file that passed the
    size gate, in the order of the listing: a file skipped for its size
    has no line, and a file above the threshold whose header has no
    target column has one, with the status IGNORADO. *)
Theorem main_log (listing : list pystr) (fs : fsys) :
  NoDup listing -> (forall name, name ∈ listing -> is_Some (fs !! name)) ->
  exists fs',
    let results := map (entry_of U fs) (List.filter (passes_gate fs) listing) in
    main U listing fs = Some (length results, fs')
    /\ fs' !! LOG_FILE = Some (written (concat (map log_line results)))
    /\ (forall name f, name ∈ listing -> fs !! name = Some f ->
          st_size f <= 10240 ->
          forall e, e ∈ results -> e.1.1 <> name)
    /\ (forall name f, name ∈ listing -> name <> LOG_FILE -> fs !! name = Some f ->
          10240 < st_size f ->
          match splitlines (text f) with
          | header :: _ => detect_spanish_header U (split semicolon header) = None
          | [] => True
          end ->
          (name, py "SCRIPT", IGNORADO) ∈ results).
Proof.
  intros Hnd Hex.
  destruct (main_loop_spec listing fs [] Hnd Hex) as (fs1 & Hloop & _).
  simpl in Hloop. eexists. cbn zeta. split; [|split; [|split]].
  - unfold main, mbind, io_bind at 1. rewrite Hloop. reflexivity.
  - apply lookup_insert_eq.
  - intros name f Hin Hf Hsz e He Hname.
    apply list_elem_of_In, in_map_iff in He as (p & <- & Hp).
    apply filter_In in Hp as [_ Hp]. simpl in Hname. subst p.
    unfold passes_gate in Hp. rewrite Hf in Hp.
    apply andb_true_iff in Hp as [_ Hp]. apply N.ltb_lt in Hp.
    change large_threshold with 10240 in Hp. lia.
  - intros name f Hin Hname Hf Hsz Hcol.
    apply list_elem_of_In, in_map_iff. exists name. split.
    + unfold entry_of, file_outcome. rewrite Hf.
      destruct (splitlines (text f)); [reflexivity|]. rewrite Hcol. reflexivity.
    + apply filter_In. split; [apply list_elem_of_In, Hin|].
      unfold passes_gate. rewrite Hf. apply str_eqb_neq in Hname. rewrite Hname.
      simpl. apply N.ltb_lt. exact Hsz.
Qed.
End BatchDriver.

Lemma process_file_no_lines_witness :
  process_file latin1_only (py "empty.csv") (<[py "empty.csv" := written []]> sample_dir)
  = Some ((IGNORADO, 0%nat), <[py "empty.csv" := written []]> sample_dir).
Proof.
  apply (process_file_no_lines latin1_only _ (py "empty.csv") (written [])).
  - apply lookup_insert_eq.
  - reflexivity.
Defined.

Lemma main_size_gate_witness :
  (st_size small_csv <= 10240 ->
     main_step latin1_only [] (py "a.csv") sample_dir = Some ([], sample_dir)
     /\ main latin1_only [py "a.csv"] sample_dir
        = Some (0%nat, <[LOG_FILE := written []]> sample_dir))
  /\ (10241 <= st_size small_csv ->
      exists st n fs', process_file latin1_only (py "a.csv") sample_dir = Some ((st, n), fs')
        /\ main_step latin1_only [] (py "a.csv") sample_dir
           = Some ([] ++ [(py "a.csv", py "SCRIPT", st)], fs')
        /\ main latin1_only [py "a.csv"] sample_dir
           = Some (1%nat, <[LOG_FILE := written (log_line (py "a.csv", py "SCRIPT", st))]> fs')).
Proof.
  apply (main_size_gate latin1_only [] (py "a.csv") sample_dir small_csv).
  - apply (bool_decide_unpack _). vm_compute. exact I.
  - apply lookup_insert_eq.
Defined.

(** The boundary of the gate: 10240 bytes are passed over, 10241 are
    processed. *)
Example main_step_at_threshold :
  main_step latin1_only [] (py "t.csv")
    {[ py "t.csv" := {| st_size := 10240; text := py "CODE;SPANISH" ++ [LF] ++ py "k;Rey" |} ]}
  = Some ([], {[ py "t.csv" := {| st_size := 10240; text := py "CODE;SPANISH" ++ [LF] ++ py "k;Rey" |} ]})
  /\ main_step latin1_only [] (py "t.csv")
    {[ py "t.csv" := {| st_size := 10241; text := py "CODE;SPANISH" ++ [LF] ++ py "k;Rey" |} ]}
  = Some ([(py "t.csv", py "SCRIPT", TRADUZIDO)],
          {[ py "t.csv" := written (py "CODE;SPANISH" ++ [LF] ++ py "k;Rei" ++ [LF]) ]}).
Proof. split; vm_compute; reflexivity. Qed.

Lemma main_log_witness :
  exists fs',
    let results := map (entry_of latin1_only sample_dir)
                       (List.filter (passes_gate sample_dir) sample_listing) in
    main latin1_only sample_listing sample_dir = Some (length results, fs')
    /\ fs' !! LOG_FILE = Some (written (concat (map log_line results)))
    /\ (forall name f, name ∈ sample_listing -> sample_dir !! name = Some f ->
          st_size f <= 10240 ->
          forall e, e ∈ results -> e.1.1 <> name)
    /\ (forall name f, name ∈ sample_listing -> name <> LOG_FILE ->
          sample_dir !! name = Some f ->
          10240 < st_size f ->
          match splitlines (text f) with
          | header :: _ => detect_spanish_header latin1_only (split semicolon header) = None
          | [] => True
          end ->
          (name, py "SCRIPT", IGNORADO) ∈ results).
Proof.
  apply (main_log latin1_only sample_listing sample_dir).
  - apply (bool_decide_unpack _). vm_compute. exact I.
  - apply Forall_forall. apply (bool_decide_unpack _). vm_compute. exact I.
Defined.

(** C3 as stated fails: [b.csv] is above the threshold and its header has
    no target column, and the log has a line for it. *)
Lemma main_logs_file_without_target_column :
  sample_dir !! py "b.csv" = Some plain_csv
  /\ 10240 < st_size plain_csv
  /\ head (splitlines (text plain_csv)) = Some (py "CODE;TEXT")
  /\ detect_spanish_header latin1_only (split semicolon (py "CODE;TEXT")) = None
  /\ exists n fs',
       main latin1_only sample_listing sample_dir = Some (n, fs')
       /\ text <$> fs' !! LOG_FILE
          = Some (py "b.csv;SCRIPT;IGNORADO" ++ [LF] ++ py "c.csv;SCRIPT;TRADUZIDO" ++ [LF]).
Proof.
  split; [vm_compute; reflexivity|].
  split; [vm_compute; reflexivity|].
  split; [vm_compute; reflexivity|].
  split; [vm_compute; reflexivity|].
  destruct (main latin1_only sample_listing sample_dir) as [[n fs']|] eqn:E.
  - exists n, fs'. split; [reflexivity|].
    assert ((text <$> (main latin1_only sample_listing sample_dir ≫= fun r => r.2 !! LOG_FILE))
            = Some (py "b.csv;SCRIPT;IGNORADO" ++ [LF] ++ py "c.csv;SCRIPT;TRADUZIDO" ++ [LF])) as H
      by (vm_compute; reflexivity).
    rewrite E in H. exact H.
  - assert (is_Some (main latin1_only sample_listing sample_dir)) as [x H]
      by (apply (bool_decide_unpack _); vm_compute; exact I).
    congruence.
Qed.

(** ** The line rewriter *)

Lemma not_contains_sep (sep : N) (s : pystr) :
  contains [sep] s = false <-> sep ∉ s.
Proof.
  split.
  - intros H Hin. apply list_elem_of_split in Hin as (pre & post & ->).
    assert (contains [sep] (pre ++ sep :: post) = true) as H'
      by (apply contains_spec; exists pre, post; reflexivity).
    congruence.
  - intros H. destruct (contains [sep] s) eqn:E; [|reflexivity].
    apply contains_spec in E as (pre & post & ->).
    exfalso. apply H. rewrite !elem_of_app. right. left. apply list_elem_of_here.
Qed.

(** The pieces of [split]: all but the last are free of the separator and
    were followed by one; the last is the remainder, free of the separator
    unless the limit of cuts was reached. *)
Lemma split_max_shape (sep : N) (n : nat) (s : pystr) :
  exists P last,
    split_max sep n s = P ++ [last]
    /\ (length P <= n)%nat
    /\ Forall (fun p => sep ∉ p) P
    /\ s = concat (map (fun p => p ++ [sep]) P) ++ last
    /\ ((length P < n)%nat -> sep ∉ last).
Proof.
  revert n. induction s as [|c t IH]; intros n.
  - exists [], []. simpl. repeat split; auto with lia.
    intros _ H. inversion H.
  - destruct n as [|m]; cbn [split_max].
    + exists [], (c :: t). simpl. repeat split; auto with lia.
    + destruct (N.eqb_spec c sep) as [->|Hne].
      * destruct (IH m) as (P & last & -> & Hlen & Hfree & Ht & Hlast).
        exists ([] :: P), last. simpl. repeat split; auto with lia.
        -- constructor; [|exact Hfree]. intros H. inversion H.
        -- congruence.
      * destruct (IH (S m)) as (P & last & -> & Hlen & Hfree & Ht & Hlast).
        destruct P as [|p P]; simpl in *.
        -- exists [], (c :: last). simpl. repeat split; auto with lia; [congruence|].
           intros _ H. apply elem_of_cons in H as [H|H]; [congruence|].
           apply Hlast; [lia|exact H].
        -- exists ((c :: p) :: P), last. simpl. repeat split; auto with lia.
           ++ apply Forall_cons in Hfree as [Hp HP]. constructor; [|exact HP].
              intros H. apply elem_of_cons in H as [H|H]; [congruence|auto].
           ++ congruence.
Qed.

Lemma join_columns (sep : N) (P : list pystr) :
  P <> [] -> join [sep] P ++ [sep] = concat (map (fun p => p ++ [sep]) P).
Proof.
  induction P as [|p P IH]; [congruence|]. intros _.
  destruct P as [|q P].
  - simpl. rewrite app_nil_r. reflexivity.
  - change (join [sep] (p :: q :: P)) with (p ++ [sep] ++ join [sep] (q :: P)).
    transitivity ((p ++ [sep]) ++ (join [sep] (q :: P) ++ [sep])).
    { rewrite <- !app_assoc. reflexivity. }
    rewrite IH by discriminate. reflexivity.
Qed.

Lemma join_nil (sep : N) (P : list pystr) :
  join [sep] P = [] <-> P = [] \/ P = [[]].
Proof.
  split.
  - destruct P as [|p [|q P]]; simpl; auto.
    + intros ->. auto.
    + intros H. apply app_eq_nil in H as [_ H]. discriminate.
  - intros [->| ->]; reflexivity.
Qed.

Section LineRewriter.
Variable U : ucd.

(** The cell and what follows it, as the rewriter cuts [rest]. *)
Lemma rest_cut (rest : pystr) :
  exists span suffix,
    rest = span ++ suffix /\ (semicolon ∉ span) /\ is_suffix_text suffix
    /\ (if contains (py ";") rest then
          match split_max semicolon 1 rest with
          | [span'; right_] => (span', py ";" ++ right_)
          | _ => (rest, [])
          end
        else (rest, [])) = (span, suffix).
Proof.
  change (py ";") with [semicolon].
  destruct (contains [semicolon] rest) eqn:Hc.
  - destruct (split_max_shape semicolon 1 rest) as (P & last & -> & Hlen & Hfree & Hs & Hlast).
    destruct P as [|span [|? ?]]; simpl in Hlen; [| |lia].
    + exfalso. simpl in Hs. subst last.
      assert (semicolon ∉ rest) as H by (apply Hlast; simpl; lia).
      apply not_contains_sep in H. congruence.
    + exists span, (semicolon :: last). simpl in Hs. rewrite app_nil_r in Hs.
      apply Forall_cons in Hfree as [Hspan _].
      split; [rewrite Hs, <- app_assoc; reflexivity|].
      split; [exact Hspan|]. split; [right; reflexivity|reflexivity].
  - exists rest, []. rewrite app_nil_r. apply not_contains_sep in Hc.
    split; [reflexivity|]. split; [exact Hc|]. split; [left|]; reflexivity.
Qed.

(** The anatomy of a rewritten data line.  A line that has the target
    column is the text of the [spanish_idx] columns on its left, the
    cell, and the suffix; the new line is the join of the left columns, a
    delimiter when that join is not empty, the new cell and the same
    suffix. *)
Lemma rewrite_line_anatomy (spanish_idx : nat) (ln : pystr) :
  startswith (py "#") ln = false ->
  (length (split_max semicolon spanish_idx ln) < spanish_idx + 1)%nat
    /\ rewrite_line U spanish_idx ln = (ln, false)
  \/ exists cols span suffix,
       length cols = spanish_idx
       /\ Forall (fun c => semicolon ∉ c) cols
       /\ (semicolon ∉ span)
       /\ is_suffix_text suffix
       /\ ln = columns_text cols ++ span ++ suffix
       /\ rewrite_line U spanish_idx ln
          = (match join (py ";") cols with
             | [] => []
             | l => l ++ py ";"
             end ++ (translate_text U span).1 ++ suffix,
             match (translate_text U span).2 with TRADUZIDO => true | _ => false end).
Proof.
  intros Hc. unfold rewrite_line. rewrite Hc.
  destruct (length (split_max semicolon spanish_idx ln) <? spanish_idx + 1)%nat eqn:Hlen.
  { left. apply Nat.ltb_lt in Hlen. auto. }
  right. apply Nat.ltb_ge in Hlen.
  destruct (split_max_shape semicolon spanish_idx ln) as (P & rest & E & HP & Hfree & Hs & _).
  rewrite E in *. rewrite length_app in Hlen. simpl in Hlen.
  assert (length P = spanish_idx) as HlenP by lia.
  assert (take spanish_idx (P ++ [rest]) = P) as ->
    by (rewrite <- HlenP; apply take_app_length).
  assert (nth spanish_idx (P ++ [rest]) [] = rest) as ->
    by (rewrite <- HlenP, app_nth2, Nat.sub_diag by lia; reflexivity).
  destruct (rest_cut rest) as (span & suffix & Hrest & Hspan & Hsuf & ->).
  exists P, span, suffix.
  split; [exact HlenP|]. split; [exact Hfree|]. split; [exact Hspan|].
  split; [exact Hsuf|]. split.
  { unfold columns_text. change (py ";") with [semicolon]. rewrite Hs, Hrest. reflexivity. }
  destruct (translate_text U span) as [new_span st]. cbv beta iota zeta.
  destruct (join (py ";") P) as [|x l]; [reflexivity|].
  cbn [fst snd]. rewrite <- !app_assoc. reflexivity.
Qed.

(** X11. The frame of the rewriter.  Unless the target is the second column
    and the first is empty, only the cell changes: the new line is the
    old one with the new cell in the place of the old. *)
Lemma rewrite_line_frame (spanish_idx : nat) (ln : pystr) :
  startswith (py "#") ln = false ->
  ~ (spanish_idx = 1%nat /\ head ln = Some semicolon) ->
  rewrite_line U spanish_idx ln = (ln, false)
  \/ exists cols span suffix,
       length cols = spanish_idx
       /\ Forall (fun c => semicolon ∉ c) cols
       /\ (semicolon ∉ span)
       /\ is_suffix_text suffix
       /\ ln = columns_text cols ++ span ++ suffix
       /\ (rewrite_line U spanish_idx ln).1
          = columns_text cols ++ (translate_text U span).1 ++ suffix.
Proof.
  intros Hc Hok.
  destruct (rewrite_line_anatomy spanish_idx ln Hc)
    as [[_ H]|(cols & span & suffix & Hlen & Hfree & Hspan & Hsuf & Hln & Hrw)]; [auto|].
  right. exists cols, span, suffix. repeat (split; [assumption|]).
  rewrite Hrw. cbn [fst]. f_equal.
  change (py ";") with [semicolon]. unfold columns_text. change (py ";") with [semicolon].
  destruct cols as [|c0 cols]; [reflexivity|].
  rewrite <- (join_columns semicolon (c0 :: cols)) by discriminate.
  destruct (join [semicolon] (c0 :: cols)) eqn:Hj; [|reflexivity].
  exfalso. apply join_nil in Hj as [Hj|Hj]; [discriminate|].
  injection Hj as -> ->. apply Hok. simpl in Hlen. split; [congruence|].
  rewrite Hln. reflexivity.
Qed.

(** A comment line is kept as it is. *)
Lemma rewrite_line_comment (spanish_idx : nat) (ln : pystr) :
  startswith (py "#") ln = true -> rewrite_line U spanish_idx ln = (ln, false).
Proof. unfold rewrite_line. intros ->. reflexivity. Qed.

(** X12. When the target is the second column and the first is empty, the
    delimiter between them is lost. *)
Lemma rewrite_line_loses_delimiter (span suffix : pystr) :
  semicolon ∉ span -> is_suffix_text suffix ->
  (rewrite_line U 1 (py ";" ++ span ++ suffix)).1 = (translate_text U span).1 ++ suffix.
Proof.
  intros Hspan Hsuf. set (ln := py ";" ++ span ++ suffix).
  destruct (rewrite_line_anatomy 1 ln eq_refl)
    as [[Hlen _]|(cols & span' & suffix' & Hlen & Hfree & Hspan' & Hsuf' & Hln & Hrw)].
  - exfalso. revert Hlen. unfold ln. change (py ";") with [semicolon].
    cbn [app split_max]. rewrite N.eqb_refl.
    destruct (span ++ suffix); simpl; lia.
  - destruct cols as [|c0 [|? ?]]; try discriminate.
    apply Forall_cons in Hfree as [Hc0 _].
    unfold ln, columns_text in Hln. change (py ";") with [semicolon] in Hln.
    simpl in Hln. rewrite app_nil_r in Hln.
    destruct c0 as [|x c0].
    2:{ exfalso. injection Hln as <- _. apply Hc0, list_elem_of_here. }
    injection Hln as Hln.
    assert (span' = span /\ suffix' = suffix) as [-> ->].
    { clear -Hln Hspan Hspan' Hsuf Hsuf'. revert span' Hln Hspan'.
      induction span as [|a span IH]; intros [|b span'] Hln Hb; simpl in Hln.
      - auto.
      - exfalso. destruct Hsuf as [->|Hsuf]; [discriminate|].
        rewrite Hln in Hsuf. injection Hsuf as ->. apply Hb, list_elem_of_here.
      - exfalso. destruct Hsuf' as [->|Hsuf']; [discriminate|].
        rewrite <- Hln in Hsuf'. injection Hsuf' as ->. apply Hspan, list_elem_of_here.
      - injection Hln as -> Hln.
        destruct (IH (fun H => Hspan (list_elem_of_further _ _ _ H)) span' Hln
                     (fun H => Hb (list_elem_of_further _ _ _ H))) as [-> ->].
        auto. }
    rewrite Hrw. reflexivity.
Qed.
End LineRewriter.

(** ** Cells lie within a line *)

Lemma splitlines_from_no_linebreak (n : nat) (cur s : pystr) :
  (length s <= n)%nat ->
  Forall (fun c => is_linebreak c = false) cur ->
  Forall (Forall (fun c => is_linebreak c = false)) (splitlines_from cur s).
Proof.
  revert cur s. induction n as [|n IH]; intros cur s Hn Hcur.
  - destruct s; [|simpl in Hn; lia]. simpl. destruct cur; repeat constructor.
    + apply Forall_cons in Hcur as [H _]. exact H.
    + apply Forall_cons in Hcur as [_ H]. exact H.
  - destruct s as [|c t]; simpl in Hn |- *.
    + destruct cur; repeat constructor.
      * apply Forall_cons in Hcur as [H _]. exact H.
      * apply Forall_cons in Hcur as [_ H]. exact H.
    + destruct (c =? 13).
      * constructor; [exact Hcur|]. apply IH; [|constructor].
        destruct t as [|x t']; simpl in *; [lia|]. destruct (x =? 10); simpl; lia.
      * destruct (is_linebreak c) eqn:Hc.
        -- constructor; [exact Hcur|]. apply IH; [lia|constructor].
        -- apply IH; [lia|]. apply Forall_app. split; [exact Hcur|].
           repeat constructor. exact Hc.
Qed.

(** No line of [splitlines] holds a line boundary, a line feed least of
    all. *)
Lemma splitlines_no_LF (content ln : pystr) :
  ln ∈ splitlines content -> LF ∉ ln.
Proof.
  intros Hin Hlf.
  pose proof (splitlines_from_no_linebreak (length content) [] content (Nat.le_refl _)
                (Forall_nil_2 _)) as H.
  rewrite Forall_forall in H. specialize (H ln Hin).
  rewrite Forall_forall in H. specialize (H LF Hlf). discriminate.
Qed.

(** The cell that the rewriter hands to the substituter is a piece of a
    line of the file: it holds no line feed. *)
Lemma cell_no_LF (content ln : pystr) (cols : list pystr) (span suffix : pystr) :
  ln ∈ splitlines content -> ln = columns_text cols ++ span ++ suffix -> LF ∉ span.
Proof.
  intros Hin -> Hlf. apply (splitlines_no_LF _ _ Hin).
  rewrite !elem_of_app. auto.
Qed.

(** The bracket rule looks within a line only: a pair of brackets around a
    line feed does not block a text (no cell is such a text). *)
Example translate_text_brackets_across_lines :
  translate_text latin1_only (py "[" ++ [LF] ++ py "]")
  = (py "[" ++ [LF] ++ py "]", IGNORADO).
Proof. vm_compute. reflexivity. Qed.

Section LineRewriterDefect.
Variable U : ucd.

(** C1, the defect.  With the header CODE;SPANISH;x the target column is
    the second one; in the data line ;Rey;x the first column is empty,
    and the rewritten line Rei;x has lost that column and the delimiter
    that ended it.  The same happens when the cell is not translated. *)
Theorem rewrite_line_drops_empty_first_column :
  detect_spanish_header U (split semicolon (py "CODE;SPANISH;x")) = Some 1%nat
  /\ rewrite_line U 1 (py ";Rey;x") = (py "Rei;x", true)
  /\ rewrite_line U 1 (py ";Hola;x") = (py "Hola;x", false)
  /\ process_file U (py "f.csv")
       {[ py "f.csv" := written (py "CODE;SPANISH;x" ++ [LF] ++ py ";Rey;x" ++ [LF]) ]}
     = Some ((TRADUZIDO, 1%nat),
             {[ py "f.csv" := written (py "CODE;SPANISH;x" ++ [LF] ++ py "Rei;x" ++ [LF]) ]}).
Proof. repeat split; vm_compute; reflexivity. Qed.
End LineRewriterDefect.

(** * Further properties *)

(** ** The header locator, continued *)

Section HeaderLocatorMore.
Variable U : ucd.

Lemma find_spanish_bound (cols : list pystr) (i j : nat) :
  find_spanish U i cols = Some j -> (i <= j < i + length cols)%nat.
Proof.
  intros H. destruct (find_spanish_Some U _ _ _ H) as (n & c & -> & Hn & _).
  apply lookup_lt_Some in Hn. lia.
Qed.

(** X1. The header locator gives no column exactly when no column bears
    the name and the header has five columns or fewer. *)
Theorem detect_spanish_header_none_iff (cols : list pystr) :
  detect_spanish_header U cols = None
  <-> (forall c, c ∈ cols -> is_spanish U c = false) /\ (length cols <= 5)%nat.
Proof.
  unfold detect_spanish_header.
  destruct (find_spanish U 0 cols) as [i|] eqn:Hf.
  - split; [discriminate|]. intros [Hno _].
    destruct (find_spanish_Some U _ _ _ Hf) as (n & c & _ & Hn & Hs & _).
    rewrite Hno in Hs; [discriminate|]. eapply list_elem_of_lookup_2; eauto.
  - pose proof (find_spanish_None U _ _ Hf) as Hno.
    destruct (Nat.ltb_spec 5 (length cols)).
    + split; [discriminate|]. intros [_ H']. lia.
    + split; [intros _; split; [exact Hno|lia]|reflexivity].
Qed.

(** X2. A header of more than five columns none of which bears the name:
    the locator falls back on the sixth column, index 5, whatever that
    column is called. *)
Theorem detect_spanish_header_sixth_column (cols : list pystr) :
  (forall c, c ∈ cols -> is_spanish U c = false) -> (5 < length cols)%nat ->
  detect_spanish_header U cols = Some 5%nat
  /\ exists c, cols !! 5%nat = Some c /\ is_spanish U c = false.
Proof.
  intros Hno Hlen. split.
  - unfold detect_spanish_header.
    destruct (find_spanish U 0 cols) as [i|] eqn:Hf.
    + destruct (find_spanish_Some U _ _ _ Hf) as (n & c & _ & Hn & Hs & _).
      rewrite Hno in Hs; [discriminate|]. eapply list_elem_of_lookup_2; eauto.
    + apply Nat.ltb_lt in Hlen. rewrite Hlen. reflexivity.
  - destruct (lookup_lt_is_Some_2 cols 5%nat Hlen) as [c Hc].
    exists c. split; [exact Hc|]. apply Hno. eapply list_elem_of_lookup_2; eauto.
Qed.

(** X3. The index the locator returns is always the index of a column of
    the header; it is the index of a column that bears the name, or else
    5. *)
Theorem detect_spanish_header_in_bounds (cols : list pystr) (i : nat) :
  detect_spanish_header U cols = Some i ->
  exists c, cols !! i = Some c
    /\ (is_spanish U c = true
        \/ i = 5%nat /\ forall c', c' ∈ cols -> is_spanish U c' = false).
Proof.
  unfold detect_spanish_header.
  destruct (find_spanish U 0 cols) as [j|] eqn:Hf.
  - intros [= <-]. destruct (find_spanish_Some U _ _ _ Hf) as (n & c & -> & Hn & Hs & _).
    exists c. auto.
  - destruct (Nat.ltb_spec 5 (length cols)) as [Hlen|]; [|discriminate].
    intros [= <-]. destruct (lookup_lt_is_Some_2 cols 5%nat Hlen) as [c Hc].
    exists c. split; [exact Hc|]. right. split; [reflexivity|].
    exact (find_spanish_None U _ _ Hf).
Qed.

Lemma lstrip_spaces_app (ws s : pystr) :
  Forall (fun c => isspace U c = true) ws -> lstrip U (ws ++ s) = lstrip U s.
Proof.
  induction 1 as [|c ws Hc _ IH]; [reflexivity|]. simpl. rewrite Hc. exact IH.
Qed.

Lemma lstrip_spaces (ws : pystr) :
  Forall (fun c => isspace U c = true) ws -> lstrip U ws = [].
Proof.
  intros H. rewrite <- (app_nil_r ws). rewrite lstrip_spaces_app by exact H. reflexivity.
Qed.

Lemma lstrip_nil_spaces (s : pystr) :
  lstrip U s = [] -> Forall (fun c => isspace U c = true) s.
Proof.
  induction s as [|c s IH]; [constructor|]. simpl.
  destruct (isspace U c) eqn:Hc; [|discriminate]. intros H. constructor; auto.
Qed.

Lemma lstrip_app_kept (s x : pystr) :
  lstrip U s <> [] -> lstrip U (s ++ x) = lstrip U s ++ x.
Proof.
  induction s as [|c s IH]; [intros H; exfalso; apply H; reflexivity|]. simpl.
  destruct (isspace U c); [exact IH|reflexivity].
Qed.

Lemma rstrip_app_spaces (s ws : pystr) :
  Forall (fun c => isspace U c = true) ws -> rstrip U (s ++ ws) = rstrip U s.
Proof.
  intros H. unfold rstrip. rewrite reverse_app, lstrip_spaces_app; [reflexivity|].
  apply Forall_reverse. exact H.
Qed.

(** [strip] does not see the white space around a text. *)
Lemma strip_padded (ws1 s ws2 : pystr) :
  Forall (fun c => isspace U c = true) ws1 ->
  Forall (fun c => isspace U c = true) ws2 ->
  strip U (ws1 ++ s ++ ws2) = strip U s.
Proof.
  intros H1 H2. unfold strip. rewrite lstrip_spaces_app by exact H1.
  destruct (lstrip U s) as [|c r] eqn:E.
  - rewrite lstrip_spaces; [reflexivity|].
    apply Forall_app. split; [apply lstrip_nil_spaces, E|exact H2].
  - rewrite lstrip_app_kept by congruence. rewrite E.
    apply rstrip_app_spaces, H2.
Qed.

(** X4. The header test ignores the white space around a column name: a
    name passes with padding exactly when it passes without. *)
Theorem is_spanish_padded (ws1 c ws2 : pystr) :
  Forall (fun x => isspace U x = true) ws1 ->
  Forall (fun x => isspace U x = true) ws2 ->
  is_spanish U (ws1 ++ c ++ ws2) = is_spanish U c.
Proof.
  intros H1 H2. unfold is_spanish. rewrite strip_padded by assumption. reflexivity.
Qed.
End HeaderLocatorMore.

Lemma detect_spanish_header_sixth_column_witness :
  detect_spanish_header latin1_only (split semicolon (py "#CODE;ENGLISH;FRENCH;GERMAN;;ESPANOL;x"))
  = Some 5%nat
  /\ exists c, split semicolon (py "#CODE;ENGLISH;FRENCH;GERMAN;;ESPANOL;x") !! 5%nat = Some c
       /\ is_spanish latin1_only c = false.
Proof.
  apply (detect_spanish_header_sixth_column latin1_only).
  - apply Forall_forall. apply (bool_decide_unpack _). vm_compute. exact I.
  - vm_compute. lia.
Defined.

Lemma detect_spanish_header_in_bounds_witness :
  exists c, split semicolon (py "CODE;spanish;x") !! 1%nat = Some c
    /\ (is_spanish latin1_only c = true
        \/ 1%nat = 5%nat
           /\ forall c', c' ∈ split semicolon (py "CODE;spanish;x") ->
                is_spanish latin1_only c' = false).
Proof.
  apply (detect_spanish_header_in_bounds latin1_only). vm_compute. reflexivity.
Defined.

Lemma is_spanish_padded_witness :
  is_spanish latin1_only (py "  " ++ py "Spanish" ++ py " ")
  = is_spanish latin1_only (py "Spanish").
Proof.
  apply (is_spanish_padded latin1_only); apply (bool_decide_unpack _); vm_compute; exact I.
Defined.

(** ** The word substituter, continued *)

Lemma dict_get_elem (k v : pystr) (d : dict) :
  dict_get k d = Some v -> (k, v) ∈ d.
Proof.
  induction d as [|[k' v'] d IH]; simpl; [discriminate|].
  destruct (str_eqb k' k) eqn:E.
  - intros [= ->]. apply str_eqb_eq in E as ->. apply list_elem_of_here.
  - intros H. apply list_elem_of_further, IH, H.
Qed.

Lemma sub_from_word_app (p : N -> bool) (f : pystr -> pystr) (run a s : pystr) :
  Forall (fun c => p c = true) a ->
  sub_from p f run (a ++ s) = sub_from p f (run ++ a) s.
Proof.
  intros H. revert run. induction H as [|c a Hc _ IH]; intros run.
  - rewrite app_nil_r. reflexivity.
  - simpl. rewrite Hc, IH, <- app_assoc. reflexivity.
Qed.

Lemma sub_from_cut (p : N -> bool) (f : pystr -> pystr) (run a : pystr) (c : N) (b : pystr) :
  p c = false ->
  sub_from p f run (a ++ c :: b) = sub_from p f run a ++ c :: sub_from p f [] b.
Proof.
  intros Hc. revert run. induction a as [|x a IH]; intros run; simpl.
  - rewrite Hc. reflexivity.
  - destruct (p x); [apply IH|]. rewrite IH, <- app_assoc. reflexivity.
Qed.

(** A run on its way is replaced by the callback of a run that is not
    empty. *)
Lemma sub_from_run (p : N -> bool) (f : pystr -> pystr) (run s : pystr) :
  run <> [] -> Forall (fun c => p c = true) run ->
  exists run' rest, run' <> [] /\ Forall (fun c => p c = true) run'
    /\ sub_from p f run s = f run' ++ rest.
Proof.
  revert run. induction s as [|c s IH]; intros run Hne Hrun; simpl.
  - exists run, []. rewrite app_nil_r. destruct run; [congruence|auto].
  - destruct (p c) eqn:Hc.
    + apply IH.
      * destruct run; discriminate.
      * apply Forall_app. split; [exact Hrun|]. repeat constructor. exact Hc.
    + exists run, (c :: sub_from p f [] s). destruct run; [congruence|auto].
Qed.

Section WordSubstituterMore.
Variable U : ucd.

(** The callback returns the token or a value of the dictionary. *)
Lemma repl_cases (w : pystr) :
  repl U w = w \/ exists k, (k, repl U w) ∈ DICT.
Proof.
  unfold repl. destruct (dict_get w DICT) as [v|] eqn:Hg.
  - right. exists w. apply dict_get_elem, Hg.
  - destruct (lookup_nocase U w DICT) as [[k v]|] eqn:Hl; [|auto].
    right. exists k. apply find_some in Hl as [Hin _]. apply list_elem_of_In in Hin.
    destruct w as [|c w]; [exact Hin|].
    destruct (isupper1 U c); [|exact Hin].
    destruct (capitalize_first_DICT U _ _ Hin) as [-> _]. exact Hin.
Qed.

(** X5. The substituter works token by token: a character outside the word
    class cuts the text in two parts that are substituted apart, and stays
    where it is. *)
Theorem sub_nonword_cut (a : pystr) (c : N) (b : pystr) :
  word_class U c = false ->
  sub_class_plus (word_class U) (repl U) (a ++ c :: b)
  = sub_class_plus (word_class U) (repl U) a ++ c :: sub_class_plus (word_class U) (repl U) b.
Proof. intros Hc. apply sub_from_cut, Hc. Qed.

(** X6. A text that is one token, a run of word characters, is replaced
    by what the callback makes of the whole run, never of a part of it. *)
Theorem sub_single_token (w : pystr) :
  w <> [] -> Forall (fun c => word_class U c = true) w ->
  sub_class_plus (word_class U) (repl U) w = repl U w.
Proof.
  intros Hne Hw. unfold sub_class_plus.
  rewrite <- (app_nil_r w) at 1. rewrite sub_from_word_app by exact Hw.
  simpl. destruct w; [congruence|reflexivity].
Qed.

(** X7. The substituter writes nothing of its own: a token of the output
    is the token of the input or a value of the dictionary, in the case the
    dictionary gives it; the capital of the token never alters a value. *)
Theorem repl_token_or_value (w : pystr) :
  (repl U w = w \/ exists k, (k, repl U w) ∈ DICT)
  /\ (forall k v, (k, v) ∈ DICT -> lower U k = lower U w ->
        repl U w = v \/ exists v', dict_get w DICT = Some v' /\ repl U w = v').
Proof.
  split; [apply repl_cases|].
  intros k v Hin E. unfold repl. destruct (dict_get w DICT) as [v'|]; [eauto|].
  left. rewrite (lookup_nocase_found U _ _ _ Hin E).
  destruct w as [|c w]; [reflexivity|].
  destruct (isupper1 U c); [|reflexivity].
  apply (capitalize_first_DICT U _ _ Hin).
Qed.

Lemma repl_head (w : pystr) :
  w <> [] -> Forall (fun c => word_class U c = true) w ->
  exists x r, repl U w = x :: r /\ x <> 0xA1.
Proof.
  intros Hne Hw. destruct (repl_cases w) as [E|[k Hin]].
  - rewrite E. destruct w as [|x r]; [congruence|]. exists x, r. split; [reflexivity|].
    intros ->. apply Forall_cons in Hw as [Hx _]. revert Hx. vm_compute. discriminate.
  - destruct (capitalize_first_DICT U _ _ Hin) as [_ (x & r & E & Hx)].
    exists x, r. split; [exact E|]. intros ->. revert Hx. vm_compute. discriminate.
Qed.

(** Substitution never puts an inverted exclamation mark in front of a
    text. *)
Lemma sub_not_prefixed (t : pystr) :
  sub_class_plus (word_class U) (repl U) t <> 0xA1 :: t.
Proof.
  unfold sub_class_plus. induction t as [|c t IH]; simpl; [discriminate|].
  destruct (word_class U c) eqn:Hc.
  - destruct (sub_from_run (word_class U) (repl U) [c] t) as (run & rest & Hne & Hrun & ->).
    + discriminate.
    + repeat constructor. exact Hc.
    + destruct (repl_head run Hne Hrun) as (x & r & -> & Hx). simpl. congruence.
  - intros [= -> H]. apply IH, H.
Qed.

(** X8. An eligible cell that begins with an inverted exclamation mark is
    always reported TRADUZIDO, the word substitution changing anything or
    not: the mark is gone from the output. *)
Theorem translate_text_marked_cell (t : pystr) :
  should_skip U (0xA1 :: t) = false ->
  translate_text U (0xA1 :: t)
  = (sub_class_plus (word_class U) (repl U) t, TRADUZIDO).
Proof.
  intros Hs. unfold translate_text. rewrite Hs.
  change (remove_leading_inverted_exclamation (0xA1 :: t)) with t.
  cbv zeta. f_equal.
  destruct (str_eqb _ _) eqn:E; [|reflexivity].
  apply str_eqb_eq in E. destruct (sub_not_prefixed t E).
Qed.

(** X9. An eligible cell without a word character and without a leading
    inverted exclamation mark comes back as it is, with IGNORADO. *)
Theorem translate_text_no_word (text : pystr) :
  should_skip U text = false -> head text <> Some 0xA1 ->
  Forall (fun c => word_class U c = false) text ->
  translate_text U text = (text, IGNORADO).
Proof.
  intros Hs Hh Hw. unfold translate_text. rewrite Hs.
  assert (remove_leading_inverted_exclamation text = text) as ->.
  { unfold remove_leading_inverted_exclamation. destruct text as [|c t]; [reflexivity|].
    change (py "¡") with [0xA1]. cbn [startswith].
    destruct (N.eqb_spec 0xA1 c) as [<-|_]; [|reflexivity]. simpl in Hh. congruence. }
  cbv zeta.
  assert (sub_class_plus (word_class U) (repl U) text = text) as ->.
  { clear Hs Hh. induction Hw as [|c t Hc _ IH]; [reflexivity|].
    rewrite (sub_from_nonword U c t Hc), IH. reflexivity. }
  assert (str_eqb text text = true) as -> by (apply str_eqb_eq; reflexivity).
  reflexivity.
Qed.

(** X10. The content rules of the skip classifier are rules of
    containment: a text that contains a blocked cell is blocked. *)
Theorem should_skip_superstring (pre text post : pystr) :
  text <> [] -> should_skip U text = true ->
  should_skip U (pre ++ text ++ post) = true.
Proof.
  intros Hne Hs. apply should_skip_spec in Hs.
  apply should_skip_spec. right.
  destruct Hs as [Hs|[Hs|[Hs|[Hs|Hs]]]]; [congruence| | | |].
  - left. destruct Hs as (a & b & ->). exists (pre ++ a), (b ++ post).
    rewrite <- !app_assoc. reflexivity.
  - right; left. destruct Hs as (a & m & b & -> & Hm). exists (pre ++ a), m, (b ++ post).
    split; [|exact Hm]. rewrite <- !app_assoc. reflexivity.
  - right; right; left. destruct Hs as (a & m & b & -> & Hm).
    exists (pre ++ a), m, (b ++ post).
    split; [|exact Hm]. rewrite <- !app_assoc. reflexivity.
  - right; right; right. destruct Hs as (a & m & b & -> & Hm).
    exists (pre ++ a), m, (b ++ post).
    split; [|exact Hm]. rewrite <- !app_assoc. reflexivity.
Qed.
End WordSubstituterMore.

Lemma sub_nonword_cut_witness :
  sub_class_plus (word_class latin1_only) (repl latin1_only) (py "Bienvenido" ++ 0x2C :: py " Rey")
  = sub_class_plus (word_class latin1_only) (repl latin1_only) (py "Bienvenido")
    ++ 0x2C :: sub_class_plus (word_class latin1_only) (repl latin1_only) (py " Rey").
Proof. apply (sub_nonword_cut latin1_only). vm_compute. reflexivity. Defined.

Lemma sub_single_token_witness :
  sub_class_plus (word_class latin1_only) (repl latin1_only) (py "Reyes")
  = repl latin1_only (py "Reyes").
Proof.
  apply (sub_single_token latin1_only).
  - vm_compute. discriminate.
  - apply (bool_decide_unpack _). vm_compute. exact I.
Defined.

Lemma repl_token_or_value_witness :
  repl latin1_only (py "REINA") = py "Rainha"
  \/ exists v', dict_get (py "REINA") DICT = Some v' /\ repl latin1_only (py "REINA") = v'.
Proof.
  apply (proj2 (repl_token_or_value latin1_only (py "REINA")) (py "Reina") (py "Rainha")).
  - apply (bool_decide_unpack _). vm_compute. exact I.
  - vm_compute. reflexivity.
Defined.

Lemma translate_text_marked_cell_witness :
  translate_text latin1_only (0xA1 :: py "Hola!")
  = (sub_class_plus (word_class latin1_only) (repl latin1_only) (py "Hola!"), TRADUZIDO).
Proof. apply (translate_text_marked_cell latin1_only). vm_compute. reflexivity. Defined.

Lemma translate_text_no_word_witness :
  translate_text latin1_only (py "... ¿?") = (py "... ¿?", IGNORADO).
Proof.
  apply (translate_text_no_word latin1_only).
  - vm_compute. reflexivity.
  - vm_compute. discriminate.
  - apply (bool_decide_unpack _). vm_compute. exact I.
Defined.

Lemma should_skip_superstring_witness :
  should_skip latin1_only (py "Rey " ++ py "$NAME$" ++ py " Reina") = true.
Proof.
  apply (should_skip_superstring latin1_only).
  - vm_compute. discriminate.
  - vm_compute. reflexivity.
Defined.

(** ** The line rewriter, continued *)

(** [split] cuts at the separators, as many times as the limit allows. *)
Lemma split_max_length (sep : N) (n : nat) (s : pystr) :
  length (split_max sep n s) = S (Nat.min n (count_occ N.eq_dec s sep)).
Proof.
  revert n. induction s as [|c t IH]; intros n.
  - simpl. rewrite Nat.min_0_r. reflexivity.
  - destruct n as [|m]; [reflexivity|]. cbn [split_max count_occ].
    destruct (N.eqb_spec c sep) as [->|Hne].
    + destruct (N.eq_dec sep sep); [|congruence]. cbn [length]. rewrite IH. reflexivity.
    + destruct (N.eq_dec c sep); [congruence|].
      specialize (IH (S m)). destruct (split_max sep (S m) t); [discriminate|exact IH].
Qed.

Section LineRewriterMore.
Variable U : ucd.

(** X13. A line with fewer delimiters than the index of the target column
    has no target cell: it is kept as it is and counts for no
    translation. *)
Theorem rewrite_line_short (spanish_idx : nat) (ln : pystr) :
  (count_occ N.eq_dec ln semicolon < spanish_idx)%nat ->
  rewrite_line U spanish_idx ln = (ln, false).
Proof.
  intros Hc. unfold rewrite_line. destruct (startswith (py "#") ln); [reflexivity|].
  rewrite split_max_length.
  assert ((S (Nat.min spanish_idx (count_occ N.eq_dec ln semicolon)) <? spanish_idx + 1)%nat
          = true) as -> by (apply Nat.ltb_lt; lia).
  reflexivity.
Qed.

(** X14. A line that is no comment and has at least as many delimiters as
    the index of the target column has a target cell: the substituter is
    run on it and the line counts as translated exactly when the status of
    the cell is TRADUZIDO. *)
Theorem rewrite_line_long (spanish_idx : nat) (ln : pystr) :
  startswith (py "#") ln = false ->
  (spanish_idx <= count_occ N.eq_dec ln semicolon)%nat ->
  exists cols span suffix,
    length cols = spanish_idx
    /\ Forall (fun c => semicolon ∉ c) cols
    /\ (semicolon ∉ span)
    /\ is_suffix_text suffix
    /\ ln = columns_text cols ++ span ++ suffix
    /\ ((rewrite_line U spanish_idx ln).2 = true <-> (translate_text U span).2 = TRADUZIDO).
Proof.
  intros Hc Hn.
  destruct (rewrite_line_anatomy U spanish_idx ln Hc)
    as [[Hlen _]|(cols & span & suffix & Hlen & Hfree & Hspan & Hsuf & Hln & Hrw)].
  - rewrite split_max_length in Hlen. lia.
  - exists cols, span, suffix. repeat (split; [assumption|]).
    rewrite Hrw. cbn [snd]. destruct (translate_text U span).2; split; congruence.
Qed.
End LineRewriterMore.

Lemma rewrite_line_short_witness :
  rewrite_line latin1_only 5 (py "k;Rey;x") = (py "k;Rey;x", false).
Proof. apply (rewrite_line_short latin1_only). vm_compute. lia. Defined.

Lemma rewrite_line_long_witness :
  exists cols span suffix,
    length cols = 2%nat
    /\ Forall (fun c => semicolon ∉ c) cols
    /\ (semicolon ∉ span)
    /\ is_suffix_text suffix
    /\ py "k;;Rey;x;y" = columns_text cols ++ span ++ suffix
    /\ ((rewrite_line latin1_only 2 (py "k;;Rey;x;y")).2 = true
        <-> (translate_text latin1_only span).2 = TRADUZIDO).
Proof.
  apply (rewrite_line_long latin1_only 2 (py "k;;Rey;x;y")).
  - vm_compute. reflexivity.
  - vm_compute. lia.
Defined.

Lemma rewrite_line_frame_witness :
  rewrite_line latin1_only 2 (py "k;;Rey;x;y") = (py "k;;Rey;x;y", false)
  \/ exists cols span suffix,
       length cols = 2%nat
       /\ Forall (fun c => semicolon ∉ c) cols
       /\ (semicolon ∉ span)
       /\ is_suffix_text suffix
       /\ py "k;;Rey;x;y" = columns_text cols ++ span ++ suffix
       /\ (rewrite_line latin1_only 2 (py "k;;Rey;x;y")).1
          = columns_text cols ++ (translate_text latin1_only span).1 ++ suffix.
Proof.
  apply (rewrite_line_frame latin1_only 2 (py "k;;Rey;x;y")).
  - vm_compute. reflexivity.
  - intros [H _]. discriminate.
Defined.

Lemma rewrite_line_loses_delimiter_witness :
  (rewrite_line latin1_only 1 (py ";" ++ py "Hola" ++ py ";x")).1
  = (translate_text latin1_only (py "Hola")).1 ++ py ";x".
Proof.
  apply (rewrite_line_loses_delimiter latin1_only).
  - apply (bool_decide_unpack _). vm_compute. exact I.
  - right. reflexivity.
Defined.

(** ** The file rewriter *)

Lemma sub_from_Forall (Q : N -> Prop) (p : N -> bool) (f : pystr -> pystr) (run s : pystr) :
  (forall w, Forall Q w -> Forall Q (f w)) ->
  Forall Q run -> Forall Q s -> Forall Q (sub_from p f run s).
Proof.
  intros Hf Hrun Hs. revert run Hrun. induction Hs as [|c s Hc _ IH]; intros run Hrun; simpl.
  - destruct run; [constructor|apply Hf, Hrun].
  - destruct (p c).
    + apply IH, Forall_app. split; [exact Hrun|]. repeat constructor. exact Hc.
    + apply Forall_app. split.
      * destruct run; [constructor|apply Hf, Hrun].
      * constructor; [exact Hc|]. apply IH. constructor.
Qed.

Lemma join_Forall (Q : N -> Prop) (sep : N) (cols : list pystr) :
  Forall Q (concat (map (fun c => c ++ [sep]) cols)) -> Forall Q (join [sep] cols).
Proof.
  induction cols as [|c cols IH]; [constructor|]. cbn [map concat].
  rewrite !Forall_app. intros [[Hc Hsep] Hrest].
  destruct cols as [|d cols]; [exact Hc|].
  change (join [sep] (c :: d :: cols)) with (c ++ [sep] ++ join [sep] (d :: cols)).
  rewrite !Forall_app. auto.
Qed.

Section FileRewriter.
Variable U : ucd.

Lemma repl_no_linebreak (w : pystr) : no_linebreak w -> no_linebreak (repl U w).
Proof.
  intros Hw. destruct (repl_cases U w) as [->|[k Hin]]; [exact Hw|].
  assert (Forall (fun kv : pystr * pystr => no_linebreak kv.2) DICT) as H.
  { apply (bool_decide_unpack _). vm_compute. exact I. }
  rewrite Forall_forall in H. apply (H _ Hin).
Qed.

Lemma translate_text_no_linebreak (text : pystr) :
  no_linebreak text -> no_linebreak (translate_text U text).1.
Proof.
  intros Ht. unfold translate_text. destruct (should_skip U text); [exact Ht|].
  cbn [fst]. apply sub_from_Forall; [apply repl_no_linebreak|constructor|].
  unfold remove_leading_inverted_exclamation.
  destruct (startswith _ _); [apply Forall_drop|]; exact Ht.
Qed.

Lemma rewrite_line_no_linebreak (spanish_idx : nat) (ln : pystr) :
  no_linebreak ln -> no_linebreak (rewrite_line U spanish_idx ln).1.
Proof.
  intros Hln. destruct (startswith (py "#") ln) eqn:Hc.
  { rewrite rewrite_line_comment by exact Hc. exact Hln. }
  destruct (rewrite_line_anatomy U spanish_idx ln Hc)
    as [[_ ->]|(cols & span & suffix & _ & _ & _ & _ & E & ->)]; [exact Hln|].
  cbn [fst]. subst ln. unfold no_linebreak in *. rewrite !Forall_app in Hln.
  destruct Hln as (Hcols & Hspan & Hsuf).
  rewrite !Forall_app. split; [|split; [apply translate_text_no_linebreak, Hspan|exact Hsuf]].
  change (py ";") with [semicolon].
  assert (Forall (fun c => is_linebreak c = false) (join [semicolon] cols)) as Hj
    by (apply join_Forall; exact Hcols).
  destruct (join [semicolon] cols); [constructor|].
  apply Forall_app. split; [exact Hj|]. repeat constructor.
Qed.

(** The loop over the data lines rewrites each line by itself and counts the
    lines the cell of which was translated. *)
Lemma fold_process_line (spanish_idx : nat) (data : list pystr) (acc : list pystr * nat) :
  fold_left (process_line U spanish_idx) data acc
  = (acc.1 ++ map (fun ln => (rewrite_line U spanish_idx ln).1) data,
     (acc.2 + length (List.filter (fun ln => (rewrite_line U spanish_idx ln).2) data))%nat).
Proof.
  revert acc. induction data as [|ln data IH]; intros [out n]; simpl.
  - rewrite app_nil_r, Nat.add_0_r. reflexivity.
  - rewrite IH. unfold process_line.
    destruct (rewrite_line U spanish_idx ln) as [new_line [|]]; simpl;
      rewrite <- app_assoc; f_equal; lia.
Qed.

Lemma process_file_unfold (fs : fsys) (path : pystr) (f : file)
    (header : pystr) (data : list pystr) (spanish_idx : nat) :
  fs !! path = Some f ->
  splitlines (text f) = header :: data ->
  detect_spanish_header U (split semicolon header) = Some spanish_idx ->
  process_file U path fs
  = Some ((TRADUZIDO, length (List.filter (fun ln => (rewrite_line U spanish_idx ln).2) data)),
          <[path := written (join [LF]
                       (header :: map (fun ln => (rewrite_line U spanish_idx ln).1) data)
                     ++ [LF])]> fs).
Proof.
  intros Hf Hl Hd. unfold process_file, mbind, io_bind, read_text.
  rewrite Hf, Hl, Hd, fold_process_line. reflexivity.
Qed.

Lemma splitlines_from_line (cur l rest : pystr) :
  no_linebreak l -> splitlines_from cur (l ++ rest) = splitlines_from (cur ++ l) rest.
Proof.
  intros Hl. revert cur. induction Hl as [|c l Hc _ IH]; intros cur.
  - rewrite app_nil_r. reflexivity.
  - simpl. assert ((c =? 13) = false) as ->.
    { destruct (N.eqb_spec c 13) as [->|]; [discriminate Hc|reflexivity]. }
    rewrite Hc, IH, <- app_assoc. reflexivity.
Qed.

(** What [f.write('\n'.join(lines) + '\n')] writes, [splitlines] reads
    back. *)
Lemma splitlines_join (lines : list pystr) :
  lines <> [] -> Forall no_linebreak lines ->
  splitlines (join [LF] lines ++ [LF]) = lines.
Proof.
  intros Hne Hl. unfold splitlines. induction Hl as [|l lines Hl Hrest IH]; [congruence|].
  destruct lines as [|l2 lines].
  - simpl. rewrite splitlines_from_line by exact Hl. reflexivity.
  - change (join [LF] (l :: l2 :: lines)) with (l ++ [LF] ++ join [LF] (l2 :: lines)).
    rewrite <- !app_assoc. rewrite splitlines_from_line by exact Hl.
    cbn [app splitlines_from]. change (LF =? 13) with false. change (is_linebreak LF) with true.
    cbv iota. f_equal. apply IH. discriminate.
Qed.

Lemma splitlines_no_linebreak (content : pystr) :
  Forall no_linebreak (splitlines content).
Proof.
  apply (splitlines_from_no_linebreak (length content)); [lia|constructor].
Qed.
End FileRewriter.

Lemma lookup_map_Some {A B : Type} (g : A -> B) (l : list A) (i : nat) (x : A) :
  l !! i = Some x -> map g l !! i = Some (g x).
Proof.
  revert i. induction l as [|y l IH]; intros [|i] H; try discriminate.
  - injection H as ->. reflexivity.
  - apply (IH i H).
Qed.

Section FileRewriterProperties.
Variable U : ucd.

Lemma process_file_lines_back (fs : fsys) (path : pystr) (f : file)
    (header : pystr) (data : list pystr) (spanish_idx : nat) :
  fs !! path = Some f ->
  splitlines (text f) = header :: data ->
  detect_spanish_header U (split semicolon header) = Some spanish_idx ->
  exists n fs' f',
    process_file U path fs = Some ((TRADUZIDO, n), fs')
    /\ fs' !! path = Some f'
    /\ splitlines (text f')
       = header :: map (fun ln => (rewrite_line U spanish_idx ln).1) data.
Proof.
  intros Hf Hl Hd. eexists _, _, _. split; [apply (process_file_unfold U _ _ f); eassumption|].
  split; [apply lookup_insert_eq|]. cbn [text written].
  apply splitlines_join; [discriminate|].
  pose proof (splitlines_no_linebreak (text f)) as Hnb. rewrite Hl in Hnb.
  apply Forall_cons in Hnb as [Hh Hdata]. constructor; [exact Hh|].
  apply Forall_map. eapply Forall_impl; [exact Hdata|].
  intros ln Hln. apply rewrite_line_no_linebreak, Hln.
Qed.

(** X15. A file with a target column is rewritten line by line: the header
    is written first, unchanged, then each data line as the line rewriter
    returns it, each line ended by a line feed; the status is TRADUZIDO
    whatever the count, and the count is the number of data lines whose
    cell was translated, at most the number of data lines. *)
Theorem process_file_rewrites (fs : fsys) (path : pystr) (f : file)
    (header : pystr) (data : list pystr) (spanish_idx : nat) :
  fs !! path = Some f ->
  splitlines (text f) = header :: data ->
  detect_spanish_header U (split semicolon header) = Some spanish_idx ->
  exists n out,
    process_file U path fs
    = Some ((TRADUZIDO, n), <[path := written (join [LF] (header :: out) ++ [LF])]> fs)
    /\ out = map (fun ln => (rewrite_line U spanish_idx ln).1) data
    /\ n = length (List.filter (fun ln => (rewrite_line U spanish_idx ln).2) data)
    /\ (n <= length data)%nat.
Proof.
  intros Hf Hl Hd. eexists _, _.
  split; [apply (process_file_unfold U _ _ f); eassumption|].
  split; [reflexivity|]. split; [reflexivity|]. apply filter_length_le.
Qed.

(** X16. The file that [process_file] writes reads back, line for line, as
    the lines it put out: the rewritten file has as many lines as the
    original, and its header is the header of the original. *)
Theorem process_file_reads_back (fs : fsys) (path : pystr) (f : file)
    (header : pystr) (data : list pystr) (spanish_idx : nat) :
  fs !! path = Some f ->
  splitlines (text f) = header :: data ->
  detect_spanish_header U (split semicolon header) = Some spanish_idx ->
  exists n fs' f',
    process_file U path fs = Some ((TRADUZIDO, n), fs')
    /\ fs' !! path = Some f'
    /\ splitlines (text f')
       = header :: map (fun ln => (rewrite_line U spanish_idx ln).1) data
    /\ length (splitlines (text f')) = length (splitlines (text f))
    /\ head (splitlines (text f')) = Some header.
Proof.
  intros Hf Hl Hd.
  destruct (process_file_lines_back fs path f header data spanish_idx Hf Hl Hd)
    as (n & fs' & f' & Hp & Hf' & Hlines).
  exists n, fs', f'. rewrite Hlines, Hl. cbn [length head]. rewrite length_map. auto.
Qed.

(** X17. A comment line, one that begins with #, is in the rewritten file
    where it was in the original, character for character. *)
Theorem process_file_keeps_comments (fs : fsys) (path : pystr) (f : file)
    (header : pystr) (data : list pystr) (spanish_idx i : nat) (ln : pystr) :
  fs !! path = Some f ->
  splitlines (text f) = header :: data ->
  detect_spanish_header U (split semicolon header) = Some spanish_idx ->
  splitlines (text f) !! i = Some ln -> (0 < i)%nat -> startswith (py "#") ln = true ->
  exists n fs' f',
    process_file U path fs = Some ((TRADUZIDO, n), fs')
    /\ fs' !! path = Some f'
    /\ splitlines (text f') !! i = Some ln.
Proof.
  intros Hf Hl Hd Hi Hpos Hc.
  destruct (process_file_lines_back fs path f header data spanish_idx Hf Hl Hd)
    as (n & fs' & f' & Hp & Hf' & Hlines).
  exists n, fs', f'. split; [exact Hp|]. split; [exact Hf'|].
  rewrite Hlines. rewrite Hl in Hi. destruct i as [|i]; [lia|].
  change (data !! i = Some ln) in Hi.
  change (map (fun l => (rewrite_line U spanish_idx l).1) data !! i = Some ln).
  rewrite (lookup_map_Some _ _ _ _ Hi), rewrite_line_comment by exact Hc. reflexivity.
Qed.

(** X18. [process_file] reports IGNORADO or TRADUZIDO for a file, never
    BLOQUEADO, and touches no other file; when it reports IGNORADO it has
    written nothing and counted nothing, and when it reports TRADUZIDO the
    text it has written ends with a line feed. *)
Theorem process_file_frame (fs : fsys) (path : pystr) (f : file) :
  fs !! path = Some f ->
  exists st n fs',
    process_file U path fs = Some ((st, n), fs')
    /\ st <> BLOQUEADO
    /\ (forall p, p <> path -> fs' !! p = fs !! p)
    /\ (st = IGNORADO -> fs' = fs /\ n = 0%nat)
    /\ (st = TRADUZIDO ->
        exists t, fs' !! path = Some (written t) /\ last t = Some LF).
Proof.
  intros Hf. unfold process_file, mbind, io_bind, read_text. rewrite Hf.
  destruct (splitlines (text f)) as [|header data].
  { exists IGNORADO, 0%nat, fs. repeat split; try discriminate; auto. }
  destruct (detect_spanish_header U (split semicolon header)) as [idx|].
  2:{ exists IGNORADO, 0%nat, fs. repeat split; try discriminate; auto. }
  destruct (fold_left _ data _) as [out_lines n]. simpl.
  eexists TRADUZIDO, n, _. split; [reflexivity|]. split; [discriminate|].
  split; [|split; [discriminate|]].
  - intros p Hp. apply lookup_insert_ne. congruence.
  - intros _. eexists. split; [apply lookup_insert_eq|]. apply last_snoc.
Qed.
End FileRewriterProperties.

Lemma process_file_rewrites_witness :
  exists n out,
    process_file latin1_only (py "n.csv") commented_dir
    = Some ((TRADUZIDO, n),
            <[py "n.csv" := written (join [LF] (py "CODE;SPANISH;x" :: out) ++ [LF])]>
              commented_dir)
    /\ out = map (fun ln => (rewrite_line latin1_only 1 ln).1) [py "#note;Rey"; py "k;Rey;x"]
    /\ n = length (List.filter (fun ln => (rewrite_line latin1_only 1 ln).2)
                     [py "#note;Rey"; py "k;Rey;x"])
    /\ (n <= length [py "#note;Rey"; py "k;Rey;x"])%nat.
Proof.
  apply (process_file_rewrites latin1_only commented_dir (py "n.csv") commented_csv).
  - apply lookup_singleton_eq.
  - vm_compute. reflexivity.
  - vm_compute. reflexivity.
Defined.

Lemma process_file_reads_back_witness :
  exists n fs' f',
    process_file latin1_only (py "n.csv") commented_dir = Some ((TRADUZIDO, n), fs')
    /\ fs' !! py "n.csv" = Some f'
    /\ splitlines (text f')
       = py "CODE;SPANISH;x"
         :: map (fun ln => (rewrite_line latin1_only 1 ln).1) [py "#note;Rey"; py "k;Rey;x"]
    /\ length (splitlines (text f')) = length (splitlines (text commented_csv))
    /\ head (splitlines (text f')) = Some (py "CODE;SPANISH;x").
Proof.
  apply (process_file_reads_back latin1_only commented_dir (py "n.csv") commented_csv).
  - apply lookup_singleton_eq.
  - vm_compute. reflexivity.
  - vm_compute. reflexivity.
Defined.

Lemma process_file_keeps_comments_witness :
  exists n fs' f',
    process_file latin1_only (py "n.csv") commented_dir = Some ((TRADUZIDO, n), fs')
    /\ fs' !! py "n.csv" = Some f'
    /\ splitlines (text f') !! 1%nat = Some (py "#note;Rey").
Proof.
  apply (process_file_keeps_comments latin1_only commented_dir (py "n.csv") commented_csv
           (py "CODE;SPANISH;x") [py "#note;Rey"; py "k;Rey;x"] 1%nat).
  - apply lookup_singleton_eq.
  - vm_compute. reflexivity.
  - vm_compute. reflexivity.
  - vm_compute. reflexivity.
  - lia.
  - vm_compute. reflexivity.
Defined.

Lemma process_file_frame_witness :
  exists st n fs',
    process_file latin1_only (py "n.csv") commented_dir = Some ((st, n), fs')
    /\ st <> BLOQUEADO
    /\ (forall p, p <> py "n.csv" -> fs' !! p = commented_dir !! p)
    /\ (st = IGNORADO -> fs' = commented_dir /\ n = 0%nat)
    /\ (st = TRADUZIDO ->
        exists t, fs' !! py "n.csv" = Some (written t) /\ last t = Some LF).
Proof.
  apply (process_file_frame latin1_only commented_dir (py "n.csv") commented_csv).
  apply lookup_singleton_eq.
Defined.

(** ** The batch driver, continued *)

Section BatchDriverMore.
Variable U : ucd.

Lemma main_loop_untouched (listing : list pystr) (fs fs' : fsys) (results r : list log_entry) :
  NoDup listing -> (forall name, name ∈ listing -> is_Some (fs !! name)) ->
  main_loop U results listing fs = Some (r, fs') ->
  forall p, passes_gate fs p = false \/ p ∉ listing -> fs' !! p = fs !! p.
Proof.
  revert fs results. induction listing as [|name rest IH]; intros fs results Hnd Hex Hloop p Hp.
  - simpl in Hloop. injection Hloop as _ <-. reflexivity.
  - apply NoDup_cons in Hnd as [Hnotin Hnd].
    destruct (Hex name) as [f Hf]; [apply list_elem_of_here|].
    destruct (main_step_spec U results name fs f Hf) as (fs1 & Hstep & Hframe & Hsome & Hid).
    cbn [main_loop] in Hloop. unfold mbind, io_bind at 1 in Hloop. rewrite Hstep in Hloop.
    assert (forall q, q ∈ rest -> fs1 !! q = fs !! q) as Hrest.
    { intros q Hq. apply Hframe. intros ->. auto. }
    assert (forall q, q ∈ rest -> is_Some (fs1 !! q)) as Hex1.
    { intros q Hq. rewrite (Hrest q Hq). apply Hex, list_elem_of_further, Hq. }
    destruct (decide (p = name)) as [->|Hne].
    + destruct Hp as [Hp|Hp]; [|exfalso; apply Hp, list_elem_of_here].
      rewrite (Hid Hp) in *. apply (IH fs _ Hnd Hex1 Hloop). right. exact Hnotin.
    + rewrite <- (Hframe p Hne). apply (IH fs1 _ Hnd Hex1 Hloop).
      destruct Hp as [Hp|Hp].
      * left. rewrite (passes_gate_ext fs fs1 p (Hframe p Hne)). exact Hp.
      * right. intros Hin. apply Hp, list_elem_of_further, Hin.
Qed.

(** X19. [main] rewrites the files that pass the size gate and the log,
    nothing else: a file of the directory that is not listed, or that is
    listed and is no larger than the threshold, is after the run what it was
    before. *)
Theorem main_leaves_other_files (listing : list pystr) (fs : fsys) :
  NoDup listing -> (forall name, name ∈ listing -> is_Some (fs !! name)) ->
  exists n fs',
    main U listing fs = Some (n, fs')
    /\ (n <= length listing)%nat
    /\ is_Some (fs' !! LOG_FILE)
    /\ forall p, p <> LOG_FILE ->
         p ∉ listing
         \/ (exists f, fs !! p = Some f /\ st_size f <= 10240) ->
         fs' !! p = fs !! p.
Proof.
  intros Hnd Hex.
  destruct (main_loop_spec U listing fs [] Hnd Hex) as (fs1 & Hloop & _).
  eexists _, _. split; [|split; [|split]].
  - unfold main, mbind, io_bind at 1. rewrite Hloop. reflexivity.
  - rewrite length_app, length_map. simpl. apply filter_length_le.
  - rewrite lookup_insert_eq. eauto.
  - intros p Hp Hcase. rewrite lookup_insert_ne by congruence.
    apply (main_loop_untouched listing fs fs1 [] _ Hnd Hex Hloop).
    destruct Hcase as [Hcase|(f & Hf & Hsz)]; [right; exact Hcase|left].
    unfold passes_gate. rewrite Hf. apply andb_false_iff. right.
    apply N.ltb_ge. exact Hsz.
Qed.

Lemma main_step_keeps_missing (results r : list log_entry) (name p : pystr) (fs fs' : fsys) :
  main_step U results name fs = Some (r, fs') -> fs !! p = None -> fs' !! p = None.
Proof.
  intros Hstep Hp. destruct (fs !! name) as [f|] eqn:Hf.
  - destruct (main_step_spec U results name fs f Hf) as (fs1 & E & Hframe & _).
    rewrite E in Hstep. injection Hstep as _ <-.
    rewrite Hframe; [exact Hp|]. intros ->. congruence.
  - revert Hstep. unfold main_step, mbind, io_bind, stat_size.
    destruct (str_eqb name LOG_FILE); [|rewrite Hf; discriminate].
    intros [= _ <-]. exact Hp.
Qed.

Lemma main_loop_missing (listing : list pystr) (name : pystr) (fs : fsys) (results : list log_entry) :
  name ∈ listing -> name <> LOG_FILE -> fs !! name = None ->
  main_loop U results listing fs = None.
Proof.
  revert fs results. induction listing as [|x rest IH]; intros fs results Hin Hname Hf.
  - inversion Hin.
  - cbn [main_loop]. unfold mbind, io_bind at 1.
    destruct (main_step U results x fs) as [[r fs1]|] eqn:Hstep; [|reflexivity].
    apply elem_of_cons in Hin as [<-|Hin].
    + exfalso. revert Hstep. unfold main_step, mbind, io_bind, stat_size.
      apply str_eqb_neq in Hname. rewrite Hname, Hf. discriminate.
    + apply IH; [exact Hin|exact Hname|].
      apply (main_step_keeps_missing _ _ _ _ _ _ Hstep Hf).
Qed.

(** X20. No error is caught: when a listed file, other than the log,
    cannot be opened, [main] raises, and it has not written the log. *)
Theorem main_raises_on_missing_file (listing : list pystr) (name : pystr) (fs : fsys) :
  name ∈ listing -> name <> LOG_FILE -> fs !! name = None ->
  main U listing fs = None
  /\ main_loop U [] listing fs = None.
Proof.
  intros Hin Hname Hf.
  pose proof (main_loop_missing listing name fs [] Hin Hname Hf) as H.
  split; [|exact H]. unfold main, mbind, io_bind at 1. rewrite H. reflexivity.
Qed.
End BatchDriverMore.

Lemma main_leaves_other_files_witness :
  exists n fs',
    main latin1_only sample_listing sample_dir = Some (n, fs')
    /\ (n <= length sample_listing)%nat
    /\ is_Some (fs' !! LOG_FILE)
    /\ forall p, p <> LOG_FILE ->
         p ∉ sample_listing
         \/ (exists f, sample_dir !! p = Some f /\ st_size f <= 10240) ->
         fs' !! p = sample_dir !! p.
Proof.
  apply (main_leaves_other_files latin1_only sample_listing sample_dir).
  - apply (bool_decide_unpack _). vm_compute. exact I.
  - apply Forall_forall. apply (bool_decide_unpack _). vm_compute. exact I.
Defined.

Lemma main_raises_on_missing_file_witness :
  main latin1_only [py "a.csv"; py "gone.csv"] sample_dir = None
  /\ main_loop latin1_only [] [py "a.csv"; py "gone.csv"] sample_dir = None.
Proof.
  apply (main_raises_on_missing_file latin1_only _ (py "gone.csv")).
  - apply (bool_decide_unpack _). vm_compute. exact I.
  - apply (bool_decide_unpack _). vm_compute. exact I.
  - vm_compute. reflexivity.
Defined.

(** ** The number of columns *)

Section ColumnCount.
Variable U : ucd.

Lemma lower_from_no_semicolon (before w : pystr) :
  Forall latin1_cell_char w -> Forall latin1_cell_char (lower_from U before w).
Proof.
  intros Hw. revert before. induction Hw as [|c w [Hc Hne] _ IH]; intros before; simpl.
  - constructor.
  - apply Forall_app. split; [|apply IH].
    unfold lower1. apply N.ltb_lt in Hc as Hc'. rewrite Hc'.
    destruct (in_range 65 90 c || in_range 192 214 c || in_range 216 222 c) eqn:E.
    + repeat constructor.
      * unfold in_range in E. rewrite !orb_true_iff, !andb_true_iff, !N.leb_le in E. lia.
      * unfold semicolon. unfold in_range in E.
        rewrite !orb_true_iff, !andb_true_iff, !N.leb_le in E. lia.
    + repeat constructor; assumption.
Qed.

Lemma repl_latin1_cell (w : pystr) :
  Forall latin1_cell_char w -> Forall latin1_cell_char (repl U w).
Proof.
  intros Hw.
  assert (Forall (fun kv : pystr * pystr =>
            Forall latin1_cell_char kv.2
            \/ (semicolon ∈ kv.1 /\ semicolon ∈ lower U kv.1)) DICT) as H.
  { apply (bool_decide_unpack _). vm_compute. exact I. }
  rewrite Forall_forall in H.
  assert (forall l : pystr, Forall latin1_cell_char l -> semicolon ∉ l) as Hfree.
  { intros l Hl Hin. rewrite Forall_forall in Hl. destruct (Hl _ Hin) as [_ Hne]. congruence. }
  unfold repl. destruct (dict_get w DICT) as [v|] eqn:Hg.
  - apply dict_get_elem in Hg. destruct (H _ Hg) as [Hv|[Hk _]]; [exact Hv|].
    destruct (Hfree w Hw Hk).
  - destruct (lookup_nocase U w DICT) as [[k v]|] eqn:Hl; [|exact Hw].
    apply find_some in Hl as [Hin E]. apply list_elem_of_In in Hin.
    simpl in E. apply str_eqb_eq in E.
    destruct (H _ Hin) as [Hv|[_ Hk]].
    + destruct (capitalize_first_DICT U _ _ Hin) as [Hcap _].
      destruct w as [|c w]; [exact Hv|]. destruct (isupper1 U c); [rewrite Hcap|]; exact Hv.
    + simpl in Hk. rewrite E in Hk.
      destruct (Hfree _ (lower_from_no_semicolon [] w Hw) Hk).
Qed.

Lemma translate_text_latin1_cell (text : pystr) :
  Forall latin1_cell_char text -> Forall latin1_cell_char (translate_text U text).1.
Proof.
  intros Ht. unfold translate_text. destruct (should_skip U text); [exact Ht|].
  cbn [fst]. apply sub_from_Forall; [apply repl_latin1_cell|constructor|].
  unfold remove_leading_inverted_exclamation.
  destruct (startswith _ _); [apply Forall_drop|]; exact Ht.
Qed.

(** X21. On a line of Latin-1 text, the new cell holds no delimiter: unless
    the target is the second column and the first is empty, the rewritten
    line has as many delimiters, hence as many columns, as the line it
    comes from. *)
Theorem rewrite_line_keeps_columns (spanish_idx : nat) (ln : pystr) :
  Forall (fun c => c < 0x100) ln ->
  ~ (spanish_idx = 1%nat /\ head ln = Some semicolon) ->
  count_occ N.eq_dec (rewrite_line U spanish_idx ln).1 semicolon
  = count_occ N.eq_dec ln semicolon.
Proof.
  intros Hlat Hok. destruct (startswith (py "#") ln) eqn:Hc.
  { rewrite rewrite_line_comment by exact Hc. reflexivity. }
  destruct (rewrite_line_anatomy U spanish_idx ln Hc)
    as [[_ ->]|(cols & span & suffix & Hlen & Hfree & Hspan & Hsuf & Hln & Hrw)];
    [reflexivity|].
  assert (Forall latin1_cell_char span) as Hcell.
  { subst ln. rewrite !Forall_app in Hlat. destruct Hlat as (_ & Hs & _).
    apply Forall_forall. intros c Hin. split.
    - rewrite Forall_forall in Hs. apply Hs, Hin.
    - intros ->. auto. }
  assert (semicolon ∉ (translate_text U span).1) as Hnew.
  { intros Hin. pose proof (translate_text_latin1_cell span Hcell) as H.
    rewrite Forall_forall in H. destruct (H _ Hin) as [_ Hne]. congruence. }
  assert ((rewrite_line U spanish_idx ln).1
          = columns_text cols ++ (translate_text U span).1 ++ suffix) as ->.
  { rewrite Hrw. cbn [fst]. f_equal.
    change (py ";") with [semicolon]. unfold columns_text. change (py ";") with [semicolon].
    destruct cols as [|c0 cols]; [reflexivity|].
    rewrite <- (join_columns semicolon (c0 :: cols)) by discriminate.
    destruct (join [semicolon] (c0 :: cols)) eqn:Hj; [|reflexivity].
    exfalso. apply join_nil in Hj as [Hj|Hj]; [discriminate|].
    injection Hj as -> ->. apply Hok. simpl in Hlen. split; [congruence|].
    rewrite Hln. reflexivity. }
  rewrite Hln, !count_occ_app. f_equal. f_equal.
  transitivity 0%nat; [|symmetry]; apply count_occ_not_In; rewrite <- list_elem_of_In; assumption.
Qed.
End ColumnCount.

Lemma rewrite_line_keeps_columns_witness :
  count_occ N.eq_dec (rewrite_line latin1_only 2 (py "k;;Bienvenido, Rey;x;y")).1 semicolon
  = count_occ N.eq_dec (py "k;;Bienvenido, Rey;x;y") semicolon.
Proof.
  apply (rewrite_line_keeps_columns latin1_only 2).
  - apply (bool_decide_unpack _). vm_compute. exact I.
  - intros [H _]. discriminate.
Defined.
